(** * Correlation clustering on signed graphs

    A shallow embedding of [python/algorithms/clustering.py]: the mistake
    evaluator, the two local-search heuristics and the validation check of
    class [CorrelationClustering], and the LP formulator and the solution
    interpreter of class [CorrelationClusteringLP].

    Conventions.
    - Python [int] vertex ids and cluster labels are [Z]; counters that start
      at 0 and are only incremented are [nat].
    - [Dict[int, int]] is [gmap Z Z]; [d.get(k)] is [d !! k], with [None] for
      Python's [None].
    - A Python [set] of strings is [gset string].
    - A raised exception is [None] in the [option] monad. *)

From Stdlib Require Import ZArith String Ascii DecimalString DecimalZ QArith.
From stdpp Require Import base option list gmap strings sorting.

Local Open Scope Z_scope.
Local Open Scope string_scope.

(** ** Python primitives *)

Module Py.

(** [str(z)] for an [int]: the decimal numeral, ["-"] first when negative. *)
Definition str (z : Z) : string := NilZero.string_of_int (Z.to_int z).

(** [int(s)] on the strings this program feeds it: pieces of an edge key,
    that is, runs of ASCII digits, possibly empty.  A string that is not a
    decimal numeral (the empty string among them) raises [ValueError]. *)
Definition int (s : string) : option Z :=
  Z.of_int <$> NilZero.int_of_string s.

(** [s.split(sep)] for a one-character separator. *)
Fixpoint split (sep : ascii) (s : string) : list string :=
  match s with
  | EmptyString => [EmptyString]
  | String c s' =>
      if Ascii.eqb c sep then EmptyString :: split sep s'
      else match split sep s' with
           | [] => [String c EmptyString]
           | w :: ws => String c w :: ws
           end
  end.

(** [range(a, b)] *)
Definition range (a b : nat) : list nat := seq a (b - a).

(** A [for] loop whose body may raise: the state is threaded through the
    elements in order and the first exception ends the loop. *)
Fixpoint for_each {A S : Type} (body : S → A → option S) (l : list A) (s : S)
  : option S :=
  match l with
  | [] => Some s
  | x :: l' => s' ← body s x; for_each body l' s'
  end.

(** How a [while] loop run with a bound on the number of body executions
    ends. *)
Inductive outcome (S : Type) : Type :=
| Done (final : S) (passes : nat)
| Raised
| OutOfFuel.
Global Arguments Done {S} final passes.
Global Arguments Raised {S}.
Global Arguments OutOfFuel {S}.

(** [while cond: body], run for at most [fuel] executions of the body.
    [passes] counts the executions of the body so far. *)
Fixpoint while_loop {S : Type} (cond : S → bool) (body : S → option S)
    (fuel : nat) (passes : nat) (s : S) : outcome S :=
  if cond s then
    match fuel with
    | O => OutOfFuel
    | Datatypes.S fuel' =>
        match body s with
        | None => Raised
        | Some s' => while_loop cond body fuel' (Datatypes.S passes) s'
        end
    end
  else Done s passes.

(** [l[i] = x] on a list: a negative index counts from the end, an index
    out of range raises [IndexError]. *)
Definition setitem {A : Type} (l : list A) (i : Z) (x : A) : option (list A) :=
  let n := Z.of_nat (length l) in
  if decide (0 <= i < n) then Some (<[Z.to_nat i := x]> l)
  else if decide (- n <= i < 0) then Some (<[Z.to_nat (n + i) := x]> l)
  else None.

(** [a or b] where [a] is the result of [dict.get(key)] on a dictionary of
    integers: [None] and [0] are falsy. *)
Definition or_else (a : option Z) (b : Z) : Z :=
  match a with
  | Some i => if decide (i = 0) then b else i
  | None => b
  end.

(** The ASCII digits, the characters of the numeral of a non-negative
    [int]. *)
Definition is_digit (c : ascii) : bool :=
  (48 <=? Ascii.nat_of_ascii c)%nat && (Ascii.nat_of_ascii c <=? 57)%nat.

(** Whether the character [c] occurs in [s]. *)
Fixpoint contains (c : ascii) (s : string) : bool :=
  match s with
  | EmptyString => false
  | String c' s' => Ascii.eqb c' c || contains c s'
  end.

End Py.

(** ** dataclass Clustering *)

Module Clustering.
Record t : Type := Build {
  clustering : gmap Z Z;
  mistakes : nat;
  cluster_count : nat
}.
End Clustering.

(** ** class CorrelationClustering *)

Module CC.

(** The instance attributes set by [__init__]. *)
Record t : Type := Build {
  vertices : list Z;
  positive_edges : gset string;
  negative_edges : gset string
}.

(** [_edge_key]: f"{min(u, v)}-{max(u, v)}" *)
Definition _edge_key (u v : Z) : string :=
  Py.str (Z.min u v) ++ "-" ++ Py.str (Z.max u v).

(** [__init__] *)
Definition init (vs : list Z) (pos neg : list (Z * Z)) : t :=
  {| vertices := vs;
     positive_edges := list_to_set (map (λ e, _edge_key e.1 e.2) pos);
     negative_edges := list_to_set (map (λ e, _edge_key e.1 e.2) neg) |}.

(** [u, v = map(int, edge_key.split('-'))]: raises unless the key splits
    into exactly two numerals. *)
Definition unpack_edge (edge_key : string) : option (Z * Z) :=
  match Py.split "-" edge_key with
  | [a; b] => u ← Py.int a; v ← Py.int b; Some (u, v)
  | _ => None
  end.

(** One iteration of either loop of [calculate_mistakes]; [is_mistake]
    is the test on the two [clustering.get] results. *)
Definition count_step (is_mistake : option Z → option Z → bool)
    (clustering : gmap Z Z) (mistakes : nat) (edge_key : string)
  : option nat :=
  '(u, v) ← unpack_edge edge_key;
  Some (if is_mistake (clustering !! u) (clustering !! v)
        then S mistakes else mistakes).

(** [clustering.get(u) != clustering.get(v)] *)
Definition differ (a b : option Z) : bool := negb (bool_decide (a = b)).
(** [clustering.get(u) == clustering.get(v)] *)
Definition agree (a b : option Z) : bool := bool_decide (a = b).

(** [calculate_mistakes] *)
Definition calculate_mistakes (self : t) (clustering : gmap Z Z)
  : option nat :=
  mistakes ← Py.for_each (count_step differ clustering)
               (elements (positive_edges self)) 0%nat;
  Py.for_each (count_step agree clustering)
    (elements (negative_edges self)) mistakes.

(** The graphs on which [calculate_mistakes] does not raise: every stored
    key unpacks into two integers. *)
Definition well_keyed (self : t) : Prop :=
  ∀ k, k ∈ positive_edges self ∪ negative_edges self → is_Some (unpack_edge k).

(** [_get_cluster_count]: [len(set(clustering.values()))] *)
Definition _get_cluster_count (clustering : gmap Z Z) : nat :=
  size (map_img clustering : gset Z).

(** [_clone_clustering]: [clustering.copy()].  Maps are values here, so
    the copy is the map itself. *)
Definition _clone_clustering (clustering : gmap Z Z) : gmap Z Z := clustering.

(** [{vertex: vertex for vertex in self.vertices}] *)
Definition singleton_clustering (self : t) : gmap Z Z :=
  foldl (λ d vertex, <[vertex := vertex]> d) ∅ (vertices self).

(** The relabelling loop shared by the two searches,
    [for vertex, cluster in test_clustering.items():
       if cluster == cluster_a: test_clustering[vertex] = cluster_b].
    Only values of existing keys are rewritten, so the iteration is not
    disturbed and every entry is visited once. *)
Definition merge_into (cluster_a cluster_b : Z) (test_clustering : gmap Z Z)
  : gmap Z Z :=
  (λ cluster, if decide (cluster = cluster_a) then cluster_b else cluster)
    <$> test_clustering.

(** The local variables of a search.  [improved] is the flag of the
    cluster-merge search; the vertex-pair search calls it [changed].
    [accepted] is a ghost variable: the mistake counts stored into
    [min_mistakes], oldest first. *)
Record search : Type := Search {
  clustering : gmap Z Z;
  best_clustering : gmap Z Z;
  min_mistakes : nat;
  improved : bool;
  accepted : list nat
}.

Definition set_improved (b : bool) (st : search) : search :=
  {| clustering := clustering st; best_clustering := best_clustering st;
     min_mistakes := min_mistakes st; improved := b;
     accepted := accepted st |}.

(** The initialisation shared by the two searches; raises when
    [calculate_mistakes] does. *)
Definition start (self : t) : option search :=
  let clustering := singleton_clustering self in
  let best_clustering := _clone_clustering clustering in
  min_mistakes ← calculate_mistakes self best_clustering;
  Some {| clustering := clustering; best_clustering := best_clustering;
          min_mistakes := min_mistakes; improved := true;
          accepted := [min_mistakes] |}.

(** Evaluation of a candidate and the commit of a strictly better one:
    [test_mistakes = self.calculate_mistakes(test_clustering)] and the
    [if test_mistakes < min_mistakes:] block. *)
Definition consider (self : t) (test_clustering : gmap Z Z) (st : search)
  : option search :=
  test_mistakes ← calculate_mistakes self test_clustering;
  Some (if decide (test_mistakes < min_mistakes st)%nat
        then {| clustering := test_clustering;
                best_clustering := _clone_clustering test_clustering;
                min_mistakes := test_mistakes;
                improved := true;
                accepted := accepted st ++ [test_mistakes] |}
        else st).

(** The result record built by the [return] of either search. *)
Definition result (st : search) : Clustering.t :=
  Clustering.Build (best_clustering st) (min_mistakes st)
    (_get_cluster_count (best_clustering st)).

Section ClusterMerge.

(** [list(set(clustering.values()))]: the order in which CPython
    enumerates the set of labels is fixed by the run but is not
    specified by the language, so the search is stated for an arbitrary
    enumeration. *)
Variable label_list : t → gmap Z Z → list Z.

(** The body of the two nested [for] loops over label indices.
    An index out of range raises [IndexError]. *)
Definition try_merge (self : t) (current_clusters : list Z) (i j : nat)
    (st : search) : option search :=
  cluster_a ← current_clusters !! i;
  cluster_b ← current_clusters !! j;
  let test_clustering :=
    merge_into cluster_a cluster_b (_clone_clustering (clustering st)) in
  consider self test_clustering st.

(** One execution of the body of the [while] loop.  The loop state is the
    search variables and [iterations]. *)
Definition greedy_round (self : t) (state : search * nat)
  : option (search * nat) :=
  let st := set_improved false state.1 in
  let iterations := S state.2 in
  let current_clusters := label_list self (clustering st) in
  let n := length current_clusters in
  st ← Py.for_each
         (λ st i,
            Py.for_each (λ st j, try_merge self current_clusters i j st)
              (Py.range (i + 1) n) st)
         (Py.range 0 n) st;
  Some (st, iterations).

Definition max_iterations (self : t) : nat :=
  (length (vertices self) * length (vertices self))%nat.

(** [while improved and iterations < max_iterations] *)
Definition greedy_cond (self : t) (state : search * nat) : bool :=
  improved state.1 && bool_decide (state.2 < max_iterations self)%nat.

(** The search up to the [return], with at most [fuel] rounds. *)
Definition greedy_search (fuel : nat) (self : t)
  : Py.outcome (search * nat) :=
  match start self with
  | None => Py.Raised
  | Some st =>
      Py.while_loop (greedy_cond self) (greedy_round self) fuel 0%nat
        (st, 0%nat)
  end.

(** [greedy_correlation_clustering].  The loop condition caps the rounds
    at [max_iterations], so that much fuel is enough
    ([greedy_search_terminates] below). *)
Definition greedy_correlation_clustering (self : t)
  : Py.outcome Clustering.t :=
  match greedy_search (max_iterations self) self with
  | Py.Done state passes => Py.Done (result state.1) passes
  | Py.Raised => Py.Raised
  | Py.OutOfFuel => Py.OutOfFuel
  end.

End ClusterMerge.

(** The relabelling of the vertex-pair search, whose labels come from
    [clustering.get] and so are optional.  [u] and [v] are vertices and
    every clustering of a search has all vertices as keys
    ([search_lookup_vertex] below), so both labels are present whenever
    this is called; [None] as a label matches no stored cluster. *)
Definition merge_labels (u_cluster v_cluster : option Z)
    (test_clustering : gmap Z Z) : gmap Z Z :=
  match u_cluster, v_cluster with
  | Some cluster_u, Some cluster_v =>
      merge_into cluster_u cluster_v test_clustering
  | _, _ => test_clustering
  end.

(** The body of the two nested [for] loops over vertices. *)
Definition try_vertices (self : t) (u v : Z) (st : search) : option search :=
  if decide (u = v) then Some st
  else
    let u_cluster := clustering st !! u in
    let v_cluster := clustering st !! v in
    if decide (u_cluster = v_cluster) then Some st
    else
      let test_clustering :=
        merge_labels u_cluster v_cluster (_clone_clustering (clustering st)) in
      consider self test_clustering st.

(** One execution of the body of [while changed]. *)
Definition simple_pass (self : t) (st : search) : option search :=
  let st := set_improved false st in
  Py.for_each
    (λ st u, Py.for_each (λ st v, try_vertices self u v st) (vertices self) st)
    (vertices self) st.

(** The search up to the [return], with at most [fuel] passes. *)
Definition simple_search (fuel : nat) (self : t) : Py.outcome search :=
  match start self with
  | None => Py.Raised
  | Some st => Py.while_loop improved (simple_pass self) fuel 0%nat st
  end.

(** One pass more than the mistake count of the singleton partition. *)
Definition simple_fuel (self : t) : nat :=
  match calculate_mistakes self (singleton_clustering self) with
  | Some m => S m
  | None => O
  end.

(** [simple_greedy_clustering].  The loop has no cap; [simple_fuel] passes
    are enough ([simple_search_terminates] below). *)
Definition simple_greedy_clustering (self : t) : Py.outcome Clustering.t :=
  match simple_search (simple_fuel self) self with
  | Py.Done st passes => Py.Done (result st) passes
  | Py.Raised => Py.Raised
  | Py.OutOfFuel => Py.OutOfFuel
  end.

(** What every state of a search satisfies, [m0] being the mistake count
    of the singleton partition: the stored count is the count of the
    current clustering, the best clustering is the current one, the keys
    are the vertices, and the accepted counts go strictly down from [m0]
    to the stored count. *)
Record search_inv (self : t) (m0 : nat) (st : search) : Prop := SearchInv {
  inv_mistakes :
    calculate_mistakes self (clustering st) = Some (min_mistakes st);
  inv_best : best_clustering st = clustering st;
  inv_dom : dom (clustering st) = (list_to_set (vertices self) : gset Z);
  inv_sorted : StronglySorted gt (accepted st);
  inv_head : head (accepted st) = Some m0;
  inv_last : last (accepted st) = Some (min_mistakes st)
}.

(** How a later state of a search relates to an earlier one: the flag is
    raised only by a commit, and a commit lowers the stored count and
    records it. *)
Definition progress (st st' : search) : Prop :=
  (min_mistakes st' ≤ min_mistakes st)%nat
  ∧ (length (accepted st) ≤ length (accepted st'))%nat
  ∧ (improved st' = improved st
     ∨ (improved st' = true
        ∧ (min_mistakes st' < min_mistakes st)%nat
        ∧ (length (accepted st) < length (accepted st'))%nat)).

(** The states of the cluster-merge loop: the round counter stays within
    the cap and, every round but the last having committed a merge, within
    the number of accepted counts. *)
Definition greedy_inv (self : t) (m0 : nat) (state : search * nat) : Prop :=
  search_inv self m0 state.1
  ∧ (state.2 ≤ length (vertices self) * length (vertices self))%nat
  ∧ (if improved state.1
     then (state.2 < length (accepted state.1))%nat
     else (state.2 ≤ length (accepted state.1))%nat).

(** A finished search whose accepted counts go strictly down from the
    count of the singleton partition to the count it returns. *)
Definition improving (self : t) (st : search) : Prop :=
  ∃ m0 : nat,
    calculate_mistakes self (singleton_clustering self) = Some m0
    ∧ head (accepted st) = Some m0
    ∧ StronglySorted gt (accepted st)
    ∧ last (accepted st) = Some (Clustering.mistakes (result st))
    ∧ calculate_mistakes self (Clustering.clustering (result st))
      = Some (Clustering.mistakes (result st))
    ∧ (Clustering.mistakes (result st) ≤ m0)%nat.

(** Every label in use is the id of a vertex that carries it. *)
Definition own_labels (clustering : gmap Z Z) : Prop :=
  ∀ v l : Z, clustering !! v = Some l → clustering !! l = Some l.

(** What the searches keep besides [search_inv], with no assumption on the
    graph: the stored count is the count of the current clustering, which is
    also the best one, and the labels are ids of members. *)
Definition labelled_by_members (self : t) (st : search) : Prop :=
  calculate_mistakes self (clustering st) = Some (min_mistakes st)
  ∧ best_clustering st = clustering st
  ∧ own_labels (clustering st).

(** [validate_clustering]: [set(self.vertices) == set(clustering.keys())] *)
Definition validate_clustering (self : t) (clustering : gmap Z Z) : bool :=
  bool_decide (list_to_set (vertices self) = (dom clustering : gset Z)).

End CC.

(** ** class CorrelationClusteringLP *)

Module LP.

(** The instance attributes set by [__init__]: the edge lists are kept as
    given. *)
Record t : Type := Build {
  vertices : list Z;
  positive_edges : list (Z * Z);
  negative_edges : list (Z * Z)
}.

(** [{'min': 0, 'max': 1}] *)
Record bounds : Type := Bounds { min : Z; max : Z }.

(** The local variables of [formulate_lp]; the six lists are the entries
    of the returned dictionary. *)
Record formulation : Type := Formulation {
  objective_coefficients : list Z;
  constraint_coefficients : list (list Z);
  rhs : list Z;
  constraint_types : list string;
  variable_bounds : list bounds;
  variable_names : list string;
  edge_variable_index : gmap string Z;
  variable_index : nat
}.

Definition empty : formulation :=
  Formulation [] [] [] [] [] [] ∅ 0.

(** f"{u}_{v}" *)
Definition edge_name (u v : Z) : string := Py.str u ++ "_" ++ Py.str v.
(** f"z_{u}_{v}" *)
Definition z_name (u v : Z) : string := "z_" ++ edge_name u v.

(** The body of the loops over the positive edges ([coefficient] 1) and
    over the negative edges ([coefficient] -1). *)
Definition add_variable (coefficient : Z) (f : formulation) (edge : Z * Z)
  : formulation :=
  let '(u, v) := edge in
  {| objective_coefficients := objective_coefficients f ++ [coefficient];
     constraint_coefficients := constraint_coefficients f;
     rhs := rhs f;
     constraint_types := constraint_types f;
     variable_bounds := variable_bounds f ++ [Bounds 0 1];
     variable_names := variable_names f ++ [z_name u v];
     edge_variable_index :=
       <[edge_name u v := Z.of_nat (variable_index f)]> (edge_variable_index f);
     variable_index := S (variable_index f) |}.

(** [edge_variable_index.get(f"{a}_{b}") or
     edge_variable_index.get(f"{b}_{a}", -1)] *)
Definition index_of (f : formulation) (a b : Z) : Z :=
  Py.or_else (edge_variable_index f !! edge_name a b)
    (default (-1) (edge_variable_index f !! edge_name b a)).

(** [row = [0] * variable_index; row[index_ij] = a; row[index_ik] = b;
     row[index_jk] = c] *)
Definition row (f : formulation) (index_ij index_ik index_jk a b c : Z)
  : option (list Z) :=
  r ← Py.setitem (replicate (variable_index f) 0) index_ij a;
  r ← Py.setitem r index_ik b;
  Py.setitem r index_jk c.

(** [constraint_coefficients.append(row); rhs.append(0);
     constraint_types.append("<=")] *)
Definition emit (r : list Z) (f : formulation) : formulation :=
  {| objective_coefficients := objective_coefficients f;
     constraint_coefficients := constraint_coefficients f ++ [r];
     rhs := rhs f ++ [0];
     constraint_types := constraint_types f ++ ["<="];
     variable_bounds := variable_bounds f;
     variable_names := variable_names f;
     edge_variable_index := edge_variable_index f;
     variable_index := variable_index f |}.

(** The body of the three nested loops over vertex indices. *)
Definition triple (self : t) (i j k : nat) (f : formulation)
  : option formulation :=
  vertex_i ← vertices self !! i;
  vertex_j ← vertices self !! j;
  vertex_k ← vertices self !! k;
  let index_ij := index_of f vertex_i vertex_j in
  let index_ik := index_of f vertex_i vertex_k in
  let index_jk := index_of f vertex_j vertex_k in
  if decide (index_ij = -1 ∨ index_ik = -1 ∨ index_jk = -1) then Some f
  else
    constraint1 ← row f index_ij index_ik index_jk 1 (-1) (-1);
    let f1 := emit constraint1 f in
    constraint2 ← row f1 index_ij index_ik index_jk (-1) 1 (-1);
    let f2 := emit constraint2 f1 in
    constraint3 ← row f2 index_ij index_ik index_jk (-1) (-1) 1;
    Some (emit constraint3 f2).

(** The variables of the edges: the two loops over the edge lists. *)
Definition variables (self : t) : formulation :=
  foldl (add_variable (-1))
    (foldl (add_variable 1) empty (positive_edges self))
    (negative_edges self).

(** [formulate_lp] *)
Definition formulate_lp (self : t) : option formulation :=
  let num_vertices := length (vertices self) in
  Py.for_each
    (λ f i,
       Py.for_each
         (λ f j,
            Py.for_each (λ f k, triple self i j k f)
              (Py.range (j + 1) num_vertices) f)
         (Py.range (i + 1) num_vertices) f)
    (Py.range 0 num_vertices) (variables self).

(** The value read for the pair in [interpret_solution]:
    [lp_solution.get(f"z_{vertex}_{other_vertex}",
       lp_solution.get(f"z_{other_vertex}_{vertex}", -1))].
    Solution values are floats; the two comparisons made on them are exact,
    so finite values are modelled as rationals. *)
Definition z_value (lp_solution : gmap string Q) (vertex other_vertex : Z) : Q :=
  default (default (-1)%Q (lp_solution !! z_name other_vertex vertex))
    (lp_solution !! z_name vertex other_vertex).

(** [z_value != -1 and z_value < 0.5] *)
Definition close (z : Q) : bool :=
  negb (Qeq_bool z (-1)) && negb (Qle_bool (1 # 2) z).

(** The inner loop of [interpret_solution] over [other_vertex]. *)
Definition scan (self : t) (lp_solution : gmap string Q) (vertex : Z)
    (cluster_id : Z) (clustering : gmap Z Z) : gmap Z Z :=
  foldl
    (λ clustering other_vertex,
       if decide (vertex = other_vertex) then clustering
       else if close (z_value lp_solution vertex other_vertex)
            then <[other_vertex := cluster_id]> clustering
            else clustering)
    clustering (vertices self).

(** The body of the outer loop of [interpret_solution]; the state is
    [clustering] and [cluster_id]. *)
Definition visit (self : t) (lp_solution : gmap string Q)
    (state : gmap Z Z * Z) (vertex : Z) : gmap Z Z * Z :=
  match state.1 !! vertex with
  | None =>
      (scan self lp_solution vertex state.2 (<[vertex := state.2]> state.1),
       state.2 + 1)
  | Some _ => state
  end.

(** [interpret_solution] *)
Definition interpret_solution (self : t) (lp_solution : gmap string Q)
  : gmap Z Z :=
  (foldl (visit self lp_solution) (∅, 0) (vertices self)).1.

(** What the constraint loops keep of a formulation [base]: the variables
    stay as they are, every right-hand side is 0, every type is "<=", and
    the three constraint lists grow together, each row with one
    coefficient per variable. *)
Record constraints_ok (base f : formulation) : Prop := ConstraintsOk {
  ok_objective : objective_coefficients f = objective_coefficients base;
  ok_bounds : variable_bounds f = variable_bounds base;
  ok_names : variable_names f = variable_names base;
  ok_index_map : edge_variable_index f = edge_variable_index base;
  ok_index : variable_index f = variable_index base;
  ok_rhs : Forall (λ b, b = 0) (rhs f);
  ok_types : Forall (λ ty, ty = "<=") (constraint_types f);
  ok_rows :
    Forall (λ r, length r = variable_index base) (constraint_coefficients f);
  ok_len_rhs : length (rhs f) = length (constraint_coefficients f);
  ok_len_types :
    length (constraint_types f) = length (constraint_coefficients f)
}.

(** When [other_vertex] is put into the cluster that [vertex] opens: it is
    another vertex of the graph, and the solution holds a value for the
    pair, under the name in this order or else in the other, that is not -1
    and is below one half. *)
Definition joins (self : t) (lp_solution : gmap string Q)
    (vertex other_vertex : Z) : Prop :=
  other_vertex ∈ vertices self
  ∧ other_vertex ≠ vertex
  ∧ ∃ z : Q,
      (lp_solution !! z_name vertex other_vertex = Some z
       ∨ (lp_solution !! z_name vertex other_vertex = None
          ∧ lp_solution !! z_name other_vertex vertex = Some z))
      ∧ ¬ (z == -1)%Q ∧ (z < 1 # 2)%Q.

(** The index map holds positions of variables only. *)
Definition indices_in_range (f : formulation) : Prop :=
  map_Forall (λ (_ : string) (i : Z), 0 <= i < Z.of_nat (variable_index f))
    (edge_variable_index f).

End LP.

(** ** Examples and stated properties *)

(** The graph of the mistake-count example: positive edges (1,2), (2,3),
    negative edge (1,3). *)
Definition example_graph : CC.t := CC.init [1; 2; 3] [(1, 2); (2, 3)] [(1, 3)].

(** [{1: A, 2: A, 3: A}] *)
Definition one_cluster (A : Z) : gmap Z Z :=
  <[3 := A]> (<[2 := A]> (<[1 := A]> ∅)).

(** [{1: A, 2: A, 3: B}] *)
Definition two_clusters (A B : Z) : gmap Z Z :=
  <[3 := B]> (<[2 := A]> (<[1 := A]> ∅)).

(** The mistake-count example as the specification states it: one mistake
    with everything in one cluster, none with vertex 3 apart. *)
Definition mistake_example_as_stated : Prop :=
  ∀ A B : Z, A ≠ B →
    CC.calculate_mistakes example_graph (one_cluster A) = Some 1%nat
    ∧ CC.calculate_mistakes example_graph (two_clusters A B) = Some 0%nat.

(** The treatment of a missing entry as the specification states it: an
    edge with an endpoint that has no entry (both endpoints included) adds a
    mistake when it is positive and none when it is negative.  The edge is
    added to a graph that does not have it yet. *)
Definition missing_endpoint_as_stated : Prop :=
  ∀ (vs : list Z) (pos neg : list (Z * Z)) (u v : Z) (clustering : gmap Z Z),
    0 <= u → 0 <= v →
    clustering !! u = None ∨ clustering !! v = None →
    (CC._edge_key u v ∉ CC.positive_edges (CC.init vs pos neg) →
     CC.calculate_mistakes (CC.init vs ((u, v) :: pos) neg) clustering =
     S <$> CC.calculate_mistakes (CC.init vs pos neg) clustering)
    ∧ (CC._edge_key u v ∉ CC.negative_edges (CC.init vs pos neg) →
       CC.calculate_mistakes (CC.init vs pos ((u, v) :: neg)) clustering =
       CC.calculate_mistakes (CC.init vs pos neg) clustering).


(** One vertex with a negative edge to itself. *)
Definition negative_loop : CC.t := CC.init [5] [] [(5, 5)].

(** The rounding as the specification states it: when a vertex opens a
    cluster in a run of [interpret_solution], a vertex that already has a
    cluster keeps it. *)
Definition no_reassignment_as_stated : Prop :=
  ∀ (self : LP.t) (lp_solution : gmap string Q)
    (before after : list Z) (vertex other : Z) (cluster : Z),
    LP.vertices self = (before ++ vertex :: after)%list →
    let state := foldl (LP.visit self lp_solution) (∅, 0) before in
    state.1 !! vertex = None →
    state.1 !! other = Some cluster →
    (LP.visit self lp_solution state vertex).1 !! other = Some cluster.

(** The path 1 - 2 - 3: a solution that puts 2 next to 1 and 3 next to 2. *)
Definition path_graph : LP.t := LP.Build [1; 2; 3] [(1, 2); (2, 3)] [].
Definition path_solution : gmap string Q :=
  <["z_2_3" := 0%Q]> (<["z_1_2" := 0%Q]> ∅).

(** An enumeration of the labels in use, in ascending order: what CPython
    yields for a set of small non-negative integers. *)
Definition ascending_labels (self : CC.t) (clustering : gmap Z Z) : list Z :=
  merge_sort Z.le (elements (map_img clustering : gset Z)).

(** The end-to-end scenario of the test suite. *)
Definition scenario : CC.t :=
  CC.init [1; 2; 3; 4; 5] [(1, 2); (2, 3); (4, 5)] [(1, 4); (2, 5)].

(** Three vertices with all three edges between them. *)
Definition triangle : LP.t := LP.Build [1; 2; 3] [(1, 2); (1, 3); (2, 3)] [].

(** The same edges after an edge between two other ids, so that no edge of
    the triangle has index 0. *)
Definition shifted_triangle : LP.t :=
  LP.Build [1; 2; 3] [(7, 8); (1, 2); (1, 3); (2, 3)] [].
(** * Properties

    ** Python primitives *)

Lemma contains_cons c c' s :
  Py.contains c (String c' s) = Ascii.eqb c' c || Py.contains c s.
Proof. reflexivity. Qed.

Lemma digit_neq c c' :
  Py.is_digit c = false → Py.is_digit c' = true → Ascii.eqb c' c = false.
Proof. intros Hc Hc'. apply Ascii.eqb_neq. intros ->. congruence. Qed.

Lemma contains_uint c d :
  Py.is_digit c = false → Py.contains c (NilEmpty.string_of_uint d) = false.
Proof.
  intros Hc. induction d; cbn [NilEmpty.string_of_uint]; [done|..];
    rewrite contains_cons, IHd, orb_false_r; by apply digit_neq.
Qed.

Lemma contains_str_nonneg c z :
  Py.is_digit c = false → 0 <= z → Py.contains c (Py.str z) = false.
Proof.
  intros Hc Hz. unfold Py.str. destruct z as [|p|p]; [| |lia].
  - change (Ascii.eqb "0" c || false = false).
    rewrite orb_false_r. by apply digit_neq.
  - cbn [Z.to_int NilZero.string_of_int NilZero.string_of_uint].
    pose proof (contains_uint c (Pos.to_uint p) Hc) as H.
    destruct (Pos.to_uint p); try done.
    change (Ascii.eqb "0" c || false = false).
    rewrite orb_false_r. by apply digit_neq.
Qed.

Lemma split_no_sep sep s : Py.contains sep s = false → Py.split sep s = [s].
Proof.
  induction s as [|c s IH]; simpl; [done|].
  intros [Hc Hs]%orb_false_elim. rewrite Hc, (IH Hs). done.
Qed.

Lemma split_app_sep sep a b :
  Py.contains sep a = false →
  Py.split sep (a ++ String sep b) = a :: Py.split sep b.
Proof.
  induction a as [|c a IH]; simpl.
  - intros _. by rewrite Ascii.eqb_refl.
  - intros [Hc Ha]%orb_false_elim. rewrite Hc, (IH Ha). done.
Qed.

Lemma int_str z : Py.int (Py.str z) = Some z.
Proof.
  unfold Py.int, Py.str. rewrite NilZero.isi.
  - simpl. f_equal. apply DecimalZ.of_to.
  - destruct z; simpl; try discriminate.
    intros [= H]. revert H. apply DecimalPos.Unsigned.to_uint_nonnil. 
  - destruct z; simpl; try discriminate.
    intros [= H]. revert H. apply DecimalPos.Unsigned.to_uint_nonnil. 
Qed.

Lemma unpack_edge_key u v :
  0 <= u → 0 <= v →
  CC.unpack_edge (CC._edge_key u v) = Some (Z.min u v, Z.max u v).
Proof.
  intros Hu Hv. unfold CC.unpack_edge, CC._edge_key.
  change ("-" +:+ Py.str (Z.max u v)) with (String "-" (Py.str (Z.max u v))).
  rewrite split_app_sep by (apply contains_str_nonneg; [done|lia]).
  rewrite split_no_sep by (apply contains_str_nonneg; [done|lia]).
  rewrite !int_str. done.
Qed.

Section for_each.
Context {A St : Type} (body : St → A → option St).

Lemma for_each_app l1 l2 s :
  Py.for_each body (l1 ++ l2) s = Py.for_each body l1 s ≫= Py.for_each body l2.
Proof.
  revert s. induction l1 as [|x l1 IH]; intros s; simpl; [done|].
  destruct (body s x) as [s'|]; simpl; [apply IH | done].
Qed.

(** A loop whose body keeps an invariant and does not raise under it runs
    to the end and keeps the invariant. *)
Lemma for_each_total (P : St → Prop) l s :
  (∀ s x, x ∈ l → P s → ∃ s', body s x = Some s' ∧ P s') →
  P s → ∃ s', Py.for_each body l s = Some s' ∧ P s'.
Proof.
  revert s. induction l as [|x l IH]; intros s Hbody Hs; simpl.
  - eauto.
  - destruct (Hbody s x) as (s1 & -> & Hs1); [left | done |]. simpl.
    apply IH; [|done]. intros s2 y Hy. apply Hbody. by right.
Qed.

Lemma for_each_invariant (P : St → Prop) l s s' :
  (∀ s x s', x ∈ l → P s → body s x = Some s' → P s') →
  P s → Py.for_each body l s = Some s' → P s'.
Proof.
  revert s. induction l as [|x l IH]; intros s Hbody Hs; simpl.
  - by intros [= <-].
  - destruct (body s x) as [s1|] eqn:E; simpl; [|done].
    apply IH; [|by eapply Hbody; [left|..]].
    intros s2 y s3 Hy. apply Hbody. by right.
Qed.
End for_each.

Section while_loop.
Context {St : Type} (cond : St → bool) (body : St → option St).

Lemma while_loop_more_fuel fuel fuel' p s r :
  (fuel ≤ fuel')%nat →
  Py.while_loop cond body fuel p s = r → r ≠ Py.OutOfFuel →
  Py.while_loop cond body fuel' p s = r.
Proof.
  revert fuel' p s. induction fuel as [|fuel IH]; intros fuel' p s Hle; simpl.
  - destruct (cond s) eqn:Hc; [by intros <- | ].
    intros <- _. destruct fuel'; simpl; by rewrite Hc.
  - destruct fuel' as [|fuel']; [lia|]. simpl.
    destruct (cond s); [|done].
    destruct (body s) as [s'|]; [|done].
    apply IH. lia.
Qed.

(** Termination by a measure that decreases whenever the loop goes on. *)
Lemma while_loop_terminates (μ : St → nat) (P : St → Prop) fuel p s :
  (∀ s, P s → cond s = true →
        ∃ s', body s = Some s' ∧ P s' ∧ (cond s' = true → (μ s' < μ s)%nat)) →
  P s → (cond s = true → (μ s < fuel)%nat) →
  ∃ s' p', Py.while_loop cond body fuel p s = Py.Done s' p'
           ∧ P s' ∧ cond s' = false
           ∧ (p ≤ p')%nat
           ∧ (p' ≤ p + (if cond s then S (μ s) else 0))%nat.
Proof.
  intros Hbody. revert p s.
  induction fuel as [|fuel IH]; intros p s Hs Hfuel; simpl.
  - destruct (cond s) eqn:Hc; [specialize (Hfuel eq_refl); lia|].
    exists s, p. repeat split; [done..|lia|lia].
  - destruct (cond s) eqn:Hc; [|exists s, p; repeat split; [done..|lia|lia]].
    destruct (Hbody s Hs Hc) as (s1 & -> & Hs1 & Hμ).
    specialize (Hfuel eq_refl).
    destruct (IH (S p) s1 Hs1) as (s' & p' & -> & Hs' & Hc' & Hp & Hp').
    { intros Hc1. specialize (Hμ Hc1). lia. }
    exists s', p'. repeat split; [done..|lia|].
    destruct (cond s1); [specialize (Hμ eq_refl)|]; lia.
Qed.

(** An invariant of the body holds when the loop is done. *)
Lemma while_loop_invariant (P : St → nat → Prop) fuel p s s' p' :
  (∀ s p s', P s p → cond s = true → body s = Some s' → P s' (S p)) →
  P s p → Py.while_loop cond body fuel p s = Py.Done s' p' →
  P s' p' ∧ cond s' = false.
Proof.
  intros Hbody. revert p s. induction fuel as [|fuel IH]; intros p s Hs; simpl.
  - destruct (cond s) eqn:Hc; [done|]. by intros [= <- <-].
  - destruct (cond s) eqn:Hc; [|by intros [= <- <-]].
    destruct (body s) as [s1|] eqn:Hb; [|done].
    apply IH. by eapply Hbody.
Qed.
End while_loop.

(** ** The mistake evaluator *)

Lemma unpack_edge_minus s : CC.unpack_edge (String "-" s) = None.
Proof.
  unfold CC.unpack_edge. cbn [Py.split]. rewrite Ascii.eqb_refl.
  destruct (Py.split "-" s) as [|b [|? ?]]; done.
Qed.

(** A key built from a negative endpoint starts with the minus sign, which
    [split] takes for a separator: unpacking it raises. *)
Lemma unpack_edge_key_negative u v :
  Z.min u v < 0 → CC.unpack_edge (CC._edge_key u v) = None.
Proof.
  intros H. unfold CC._edge_key.
  destruct (Z.min u v) as [| |p] eqn:E; [lia..|].
  apply unpack_edge_minus.
Qed.

Section count_loop.
Context (is_mistake : option Z → option Z → bool) (clustering : gmap Z Z).
Local Abbreviation step := (CC.count_step is_mistake clustering).

Lemma count_step_Some n k u v :
  CC.unpack_edge k = Some (u, v) →
  step n k = Some (if is_mistake (clustering !! u) (clustering !! v)
                   then S n else n).
Proof. unfold CC.count_step. by intros ->. Qed.

Lemma count_step_None n k : CC.unpack_edge k = None → step n k = None.
Proof. unfold CC.count_step. by intros ->. Qed.

Lemma count_loop_cons k l n :
  Py.for_each step (k :: l) n = step n k ≫= Py.for_each step l.
Proof. reflexivity. Qed.

Lemma count_loop_S l n : Py.for_each step l (S n) = S <$> Py.for_each step l n.
Proof.
  revert n. induction l as [|k l IH]; intros n; [done|].
  rewrite !count_loop_cons.
  destruct (CC.unpack_edge k) as [[u v]|] eqn:E.
  - rewrite !(count_step_Some _ _ _ _ E). cbn [mbind option_bind].
    destruct (is_mistake _ _); apply IH.
  - by rewrite !(count_step_None _ _ E).
Qed.

(** The count does not depend on the order in which the set is iterated. *)
Lemma count_loop_perm l l' n :
  l ≡ₚ l' → Py.for_each step l n = Py.for_each step l' n.
Proof.
  intros Hp. revert n.
  induction Hp as [|x l l' _ IH|x y l|l1 l2 l3 _ IH1 _ IH2]; intros n.
  - done.
  - rewrite !count_loop_cons. destruct (step n x); [apply IH|done].
  - rewrite !count_loop_cons.
    destruct (CC.unpack_edge x) as [[u v]|] eqn:Ex,
             (CC.unpack_edge y) as [[u' v']|] eqn:Ey.
    + rewrite (count_step_Some _ _ _ _ Ex), (count_step_Some _ _ _ _ Ey).
      cbn [mbind option_bind]. rewrite !count_loop_cons.
      rewrite (count_step_Some _ _ _ _ Ex), (count_step_Some _ _ _ _ Ey).
      by destruct (is_mistake _ _), (is_mistake _ _).
    + rewrite (count_step_None _ _ Ey), (count_step_Some _ _ _ _ Ex).
      cbn [mbind option_bind]. rewrite count_loop_cons.
      by rewrite (count_step_None _ _ Ey).
    + rewrite (count_step_None _ _ Ex), (count_step_Some _ _ _ _ Ey).
      cbn [mbind option_bind]. rewrite count_loop_cons.
      by rewrite (count_step_None _ _ Ex).
    + by rewrite (count_step_None _ _ Ex), (count_step_None _ _ Ey).
  - by rewrite IH1.
Qed.

Lemma count_loop_is_Some l n :
  is_Some (Py.for_each step l n) ↔ Forall (λ k, is_Some (CC.unpack_edge k)) l.
Proof.
  revert n. induction l as [|k l IH]; intros n.
  - split; [constructor | by eexists].
  - rewrite Forall_cons, count_loop_cons.
    destruct (CC.unpack_edge k) as [[u v]|] eqn:E.
    + rewrite (count_step_Some _ _ _ _ E). cbn [mbind option_bind].
      rewrite IH. split; [eauto | by intros [_ ?]].
    + rewrite (count_step_None _ _ E).
      split; [intros [? [=]] | intros [[? [=]] _]].
Qed.

(** The loop over a set with one more key. *)
Lemma count_loop_add k u v (X : gset string) n :
  k ∉ X → CC.unpack_edge k = Some (u, v) →
  Py.for_each step (elements ({[k]} ∪ X)) n =
  (λ m, if is_mistake (clustering !! u) (clustering !! v) then S m else m)
    <$> Py.for_each step (elements X) n.
Proof.
  intros Hk Hu.
  rewrite (count_loop_perm _ (k :: elements X)) by by apply elements_union_singleton.
  rewrite count_loop_cons, (count_step_Some _ _ _ _ Hu). cbn [mbind option_bind].
  destruct (is_mistake _ _); [apply count_loop_S|].
  by destruct (Py.for_each _ _ _).
Qed.
End count_loop.

(** [calculate_mistakes] raises on a graph or it does not, whatever the
    clustering. *)
Lemma calculate_mistakes_is_Some self clustering :
  is_Some (CC.calculate_mistakes self clustering) ↔ CC.well_keyed self.
Proof.
  unfold CC.calculate_mistakes, CC.well_keyed.
  pose proof (count_loop_is_Some CC.differ clustering
                (elements (CC.positive_edges self)) 0%nat) as Hp.
  destruct (Py.for_each _ (elements (CC.positive_edges self)) _) as [m|]; simpl.
  - rewrite count_loop_is_Some. rewrite !Forall_forall in *.
    assert (∀ k, k ∈ elements (CC.positive_edges self) →
                 is_Some (CC.unpack_edge k)) as Hp' by (apply Hp; by eexists).
    split.
    + intros Hn k [Hk|Hk]%elem_of_union; [apply Hp' | apply Hn]; by apply elem_of_elements.
    + intros H k Hk%elem_of_elements. apply H, elem_of_union. by right.
  - rewrite Forall_forall in Hp. split; [by intros [? [=]]|].
    intros H. apply Hp. intros k Hk%elem_of_elements. apply H, elem_of_union. by left.
Qed.

Lemma calculate_mistakes_uniform self c c' :
  is_Some (CC.calculate_mistakes self c) → is_Some (CC.calculate_mistakes self c').
Proof. rewrite !calculate_mistakes_is_Some. done. Qed.

(** A graph built from edges between non-negative ids is well keyed. *)
Lemma init_well_keyed vs pos neg :
  Forall (λ e : Z * Z, 0 <= e.1 ∧ 0 <= e.2) (pos ++ neg)%list →
  CC.well_keyed (CC.init vs pos neg).
Proof.
  rewrite Forall_forall. intros H k Hk.
  assert (∃ e, e ∈ (pos ++ neg)%list ∧ k = CC._edge_key e.1 e.2) as ([u v] & He & ->).
  { simpl in Hk. rewrite elem_of_union, !elem_of_list_to_set, !list_elem_of_fmap in Hk.
    destruct Hk as [(e & -> & He)|(e & -> & He)]; exists e;
      (split; [apply elem_of_app; auto | done]). }
  destruct (H _ He). simpl in *. rewrite unpack_edge_key by done. eauto.
Qed.

(** An edge with a negative endpoint makes every call raise. *)
Lemma init_negative_raises vs pos neg e clustering :
  e ∈ (pos ++ neg)%list → Z.min e.1 e.2 < 0 →
  CC.calculate_mistakes (CC.init vs pos neg) clustering = None.
Proof.
  intros He Hneg. apply eq_None_not_Some. rewrite calculate_mistakes_is_Some.
  intros H. specialize (H (CC._edge_key e.1 e.2)).
  rewrite unpack_edge_key_negative in H by done.
  destruct H as [? [=]]. simpl.
  rewrite elem_of_union, !elem_of_list_to_set, !list_elem_of_fmap.
  apply elem_of_app in He as [He|He]; [left|right]; by exists e.
Qed.

(** ** The mistake-count example *)

Lemma example_positive_keys :
  elements (CC.positive_edges example_graph) = ["1-2"; "2-3"].
Proof. vm_compute. reflexivity. Qed.

Lemma example_negative_keys :
  elements (CC.negative_edges example_graph) = ["1-3"].
Proof. vm_compute. reflexivity. Qed.

Lemma example_count (clustering : gmap Z Z) :
  CC.calculate_mistakes example_graph clustering =
  Some ((if CC.differ (clustering !! 1%Z) (clustering !! 2%Z) then 1 else 0)
        + (if CC.differ (clustering !! 2%Z) (clustering !! 3%Z) then 1 else 0)
        + (if CC.agree (clustering !! 1%Z) (clustering !! 3%Z) then 1 else 0))%nat.
Proof.
  unfold CC.calculate_mistakes.
  rewrite example_positive_keys, example_negative_keys.
  rewrite count_loop_cons.
  rewrite (count_step_Some _ _ _ "1-2" 1 2) by (vm_compute; reflexivity).
  cbn [mbind option_bind]. rewrite count_loop_cons.
  rewrite (count_step_Some _ _ _ "2-3" 2 3) by (vm_compute; reflexivity).
  cbn [mbind option_bind]. change (Py.for_each _ [] ?n) with (Some n).
  cbn [mbind option_bind]. rewrite count_loop_cons.
  rewrite (count_step_Some _ _ _ "1-3" 1 3) by (vm_compute; reflexivity).
  cbn [mbind option_bind]. change (Py.for_each _ [] ?n) with (Some n).
  by destruct (CC.differ _ _), (CC.differ _ _), (CC.agree _ _).
Qed.

(** C1, as stated, fails: with vertex 3 apart the positive edge (2,3) is
    split, so the count is not 0. *)
Lemma mistake_example_as_stated_fails : ¬ mistake_example_as_stated.
Proof.
  intros H. destruct (H 10 20) as [_ H2]; [done|].
  vm_compute in H2. discriminate H2.
Qed.

(** C1, amended: on the graph with positive edges (1,2), (2,3) and negative
    edge (1,3), [calculate_mistakes] returns exactly 1 for {1:A, 2:A, 3:A}
    (the negative edge lies inside the cluster) and exactly 1 for
    {1:A, 2:A, 3:B} with B different from A (the positive edge (2,3) is
    split). *)
Theorem mistake_example (A B : Z) :
  A ≠ B →
  CC.calculate_mistakes example_graph (one_cluster A) = Some 1%nat
  ∧ CC.calculate_mistakes example_graph (two_clusters A B) = Some 1%nat.
Proof.
  intros HAB. rewrite !example_count. unfold one_cluster, two_clusters.
  simplify_map_eq. unfold CC.differ, CC.agree.
  split; repeat case_bool_decide; simplify_eq; done.
Qed.

Lemma mistake_example_witness :
  (10 ≠ 20)
  ∧ CC.calculate_mistakes example_graph (one_cluster 10) = Some 1%nat
  ∧ CC.calculate_mistakes example_graph (two_clusters 10 20) = Some 1%nat.
Proof. split; [done | apply (mistake_example 10 20); done]. Defined.

(** ** Edges with an endpoint that has no entry *)

Lemma agree_min_max (clustering : gmap Z Z) u v :
  CC.agree (clustering !! Z.min u v) (clustering !! Z.max u v) =
  CC.agree (clustering !! u) (clustering !! v).
Proof.
  unfold CC.agree. destruct (Z.le_ge_cases u v) as [H|H].
  - by rewrite Z.min_l, Z.max_r.
  - rewrite Z.min_r, Z.max_l by lia. apply bool_decide_ext. split; congruence.
Qed.

Lemma differ_min_max (clustering : gmap Z Z) u v :
  CC.differ (clustering !! Z.min u v) (clustering !! Z.max u v) =
  CC.differ (clustering !! u) (clustering !! v).
Proof.
  unfold CC.differ. f_equal. apply (agree_min_max clustering u v).
Qed.

(** What one more positive edge adds to the count. *)
Lemma calculate_mistakes_add_positive vs pos neg u v clustering :
  0 <= u → 0 <= v →
  CC._edge_key u v ∉ CC.positive_edges (CC.init vs pos neg) →
  CC.calculate_mistakes (CC.init vs ((u, v) :: pos) neg) clustering =
  (λ m, if CC.differ (clustering !! u) (clustering !! v) then S m else m)
    <$> CC.calculate_mistakes (CC.init vs pos neg) clustering.
Proof.
  intros Hu Hv Hk. unfold CC.calculate_mistakes.
  change (CC.positive_edges (CC.init vs ((u, v) :: pos) neg))
    with ({[CC._edge_key u v]} ∪ CC.positive_edges (CC.init vs pos neg)).
  change (CC.negative_edges (CC.init vs ((u, v) :: pos) neg))
    with (CC.negative_edges (CC.init vs pos neg)).
  rewrite (count_loop_add _ _ _ (Z.min u v) (Z.max u v))
    by (done || by apply unpack_edge_key).
  rewrite differ_min_max.
  destruct (Py.for_each _ (elements (CC.positive_edges _)) _) as [m|]; [|done].
  cbn [fmap option_fmap option_map mbind option_bind].
  destruct (CC.differ _ _).
  - apply count_loop_S.
  - by destruct (Py.for_each _ _ _).
Qed.

(** What one more negative edge adds to the count. *)
Lemma calculate_mistakes_add_negative vs pos neg u v clustering :
  0 <= u → 0 <= v →
  CC._edge_key u v ∉ CC.negative_edges (CC.init vs pos neg) →
  CC.calculate_mistakes (CC.init vs pos ((u, v) :: neg)) clustering =
  (λ m, if CC.agree (clustering !! u) (clustering !! v) then S m else m)
    <$> CC.calculate_mistakes (CC.init vs pos neg) clustering.
Proof.
  intros Hu Hv Hk. unfold CC.calculate_mistakes.
  change (CC.negative_edges (CC.init vs pos ((u, v) :: neg)))
    with ({[CC._edge_key u v]} ∪ CC.negative_edges (CC.init vs pos neg)).
  change (CC.positive_edges (CC.init vs pos ((u, v) :: neg)))
    with (CC.positive_edges (CC.init vs pos neg)).
  destruct (Py.for_each _ (elements (CC.positive_edges _)) _) as [m|]; [|done].
  cbn [mbind option_bind].
  rewrite (count_loop_add _ _ _ (Z.min u v) (Z.max u v))
    by (done || by apply unpack_edge_key).
  by rewrite agree_min_max.
Qed.

(** C4, as stated, fails: when both endpoints have no entry the two [None]
    compare equal, so a positive edge adds nothing. *)
Lemma missing_endpoint_as_stated_fails : ¬ missing_endpoint_as_stated.
Proof.
  intros H.
  destruct (H [1; 2] [] [] 1 2 ∅) as [Hpos _]; [done | done | by left |].
  assert (CC._edge_key 1 2 ∉ CC.positive_edges (CC.init [1; 2] [] [])) as Hk
    by apply not_elem_of_empty.
  specialize (Hpos Hk). vm_compute in Hpos. discriminate Hpos.
Qed.

(** C4, amended: in [calculate_mistakes] a missing clustering entry reads as
    [None], a label equal to no real label but equal to itself.  For every
    graph and clustering, an edge between non-negative ids of which exactly
    one endpoint has no entry adds one mistake when positive and none when
    negative; an edge of which both endpoints have no entry adds none when
    positive and one when negative. *)
Theorem missing_endpoint_counts
    (vs : list Z) (pos neg : list (Z * Z)) (u v : Z) (clustering : gmap Z Z) :
  0 <= u → 0 <= v →
  ((clustering !! u = None ∧ is_Some (clustering !! v))
   ∨ (is_Some (clustering !! u) ∧ clustering !! v = None) →
   (CC._edge_key u v ∉ CC.positive_edges (CC.init vs pos neg) →
    CC.calculate_mistakes (CC.init vs ((u, v) :: pos) neg) clustering =
    S <$> CC.calculate_mistakes (CC.init vs pos neg) clustering)
   ∧ (CC._edge_key u v ∉ CC.negative_edges (CC.init vs pos neg) →
      CC.calculate_mistakes (CC.init vs pos ((u, v) :: neg)) clustering =
      CC.calculate_mistakes (CC.init vs pos neg) clustering))
  ∧ (clustering !! u = None ∧ clustering !! v = None →
     (CC._edge_key u v ∉ CC.positive_edges (CC.init vs pos neg) →
      CC.calculate_mistakes (CC.init vs ((u, v) :: pos) neg) clustering =
      CC.calculate_mistakes (CC.init vs pos neg) clustering)
     ∧ (CC._edge_key u v ∉ CC.negative_edges (CC.init vs pos neg) →
        CC.calculate_mistakes (CC.init vs pos ((u, v) :: neg)) clustering =
        S <$> CC.calculate_mistakes (CC.init vs pos neg) clustering)).
Proof.
  intros Hu Hv.
  assert (∀ o : option nat, (λ m, m) <$> o = o) as Hid by by intros [].
  split.
  - intros Hone. split; intros Hk.
    + rewrite calculate_mistakes_add_positive by done.
      replace (CC.differ _ _) with true; [done|].
      unfold CC.differ. destruct Hone as [[-> [? ->]]|[[? ->] ->]]; done.
    + rewrite calculate_mistakes_add_negative by done.
      replace (CC.agree _ _) with false; [apply Hid|].
      unfold CC.agree. destruct Hone as [[-> [? ->]]|[[? ->] ->]]; done.
  - intros [Hnu Hnv]. split; intros Hk.
    + rewrite calculate_mistakes_add_positive by done.
      rewrite Hnu, Hnv. apply Hid.
    + rewrite calculate_mistakes_add_negative by done.
      by rewrite Hnu, Hnv.
Qed.

Lemma missing_endpoint_counts_witness :
  CC.calculate_mistakes (CC.init [1; 2] [(1, 2)] []) {[1 := 7]} = Some 1%nat
  ∧ CC.calculate_mistakes (CC.init [1; 2] [] [(1, 2)]) {[1 := 7]} = Some 0%nat
  ∧ CC.calculate_mistakes (CC.init [1; 2] [(1, 2)] []) ∅ = Some 0%nat
  ∧ CC.calculate_mistakes (CC.init [1; 2] [] [(1, 2)]) ∅ = Some 1%nat.
Proof.
  assert (CC._edge_key 1 2 ∉ (∅ : gset string)) as Hk by apply not_elem_of_empty.
  assert (CC.calculate_mistakes (CC.init [1; 2] [] []) {[1 := 7]} = Some 0%nat)
    as E1 by (vm_compute; reflexivity).
  assert (CC.calculate_mistakes (CC.init [1; 2] [] []) ∅ = Some 0%nat)
    as E2 by (vm_compute; reflexivity).
  destruct (missing_endpoint_counts [1; 2] [] [] 1 2 {[1 := 7]})
    as [[Hp Hn] _]; [lia | lia | |].
  { right. split; [exists 7; apply lookup_singleton_eq|].
    by apply lookup_singleton_ne. }
  destruct (missing_endpoint_counts [1; 2] [] [] 1 2 ∅)
    as [_ [Hp' Hn']]; [lia | lia | split; apply lookup_empty |].
  rewrite (Hp Hk), (Hn Hk), (Hp' Hk), (Hn' Hk), E1, E2. repeat split.
Defined.

(** ** The local searches *)

Lemma singleton_clustering_lookup self v :
  CC.singleton_clustering self !! v =
  if decide (v ∈ CC.vertices self) then Some v else None.
Proof.
  unfold CC.singleton_clustering.
  assert (∀ l (d : gmap Z Z),
            foldl (λ d vertex, <[vertex := vertex]> d) d l !! v =
            if decide (v ∈ l) then Some v else d !! v) as H.
  { induction l as [|x l IH]; intros d; simpl; [done|].
    rewrite IH. destruct (decide (v ∈ l)) as [Hl|Hl].
    - rewrite decide_True; [done | by right].
    - destruct (decide (x = v)) as [->|Hx].
      + rewrite lookup_insert_eq, decide_True; [done | by left].
      + rewrite lookup_insert_ne by done.
        rewrite decide_False; [done|]. by intros [?|?]%elem_of_cons. }
  rewrite H. by destruct (decide _).
Qed.

Lemma singleton_clustering_dom self :
  dom (CC.singleton_clustering self) = (list_to_set (CC.vertices self) : gset Z).
Proof.
  apply set_eq. intros v.
  rewrite elem_of_dom, singleton_clustering_lookup, elem_of_list_to_set.
  destruct (decide _); split; (done || by eauto || by intros [? [=]]).
Qed.

Lemma merge_into_dom a b (c : gmap Z Z) : dom (CC.merge_into a b c) = dom c.
Proof. unfold CC.merge_into. apply dom_fmap_L. Qed.

Lemma merge_labels_dom a b (c : gmap Z Z) : dom (CC.merge_labels a b c) = dom c.
Proof. destruct a, b; simpl; (done || apply merge_into_dom). Qed.

Lemma progress_refl st : CC.progress st st.
Proof. unfold CC.progress. auto. Qed.

Lemma progress_trans st1 st2 st3 :
  CC.progress st1 st2 → CC.progress st2 st3 → CC.progress st1 st3.
Proof.
  unfold CC.progress. intros (? & ? & H12) (? & ? & H23).
  split; [lia|]. split; [lia|].
  destruct H23 as [E23|(? & ? & ?)]; [|right; repeat split; (done || lia)].
  destruct H12 as [E12|(? & ? & ?)]; [left; congruence|].
  right. repeat split; (congruence || lia).
Qed.

Lemma descending_snoc (l : list nat) m x :
  StronglySorted gt l → last l = Some m → (x < m)%nat →
  StronglySorted gt (l ++ [x]).
Proof.
  intros Hs Hl Hx. induction Hs as [|y l Hs IH Hy]; simpl.
  - done.
  - constructor.
    + destruct l as [|z l']; [repeat constructor|].
      apply IH. by rewrite last_cons_cons in Hl.
    + apply Forall_app. split; [done|]. constructor; [|done].
      destruct l as [|z l'].
      * simpl in Hl. injection Hl as ->. lia.
      * rewrite last_cons_cons in Hl.
        assert (m ∈ z :: l') as Hm by by apply last_Some_elem_of.
        rewrite Forall_forall in Hy. specialize (Hy m Hm). lia.
Qed.

Section search_facts.
Context (self : CC.t) (m0 : nat).
Hypothesis keyed : CC.well_keyed self.

Lemma start_spec :
  CC.calculate_mistakes self (CC.singleton_clustering self) = Some m0 →
  ∃ st, CC.start self = Some st ∧ CC.search_inv self m0 st
        ∧ CC.improved st = true ∧ CC.min_mistakes st = m0
        ∧ CC.clustering st = CC.singleton_clustering self
        ∧ CC.accepted st = [m0].
Proof.
  intros Hm. unfold CC.start, CC._clone_clustering. rewrite Hm. simpl.
  eexists. split; [done|]. repeat split; simpl; try done.
  - apply singleton_clustering_dom.
  - repeat constructor.
Qed.

(** A candidate over the same vertices is evaluated without raising; the
    state either stays or is replaced by a strictly better one. *)
Lemma consider_spec test_clustering st :
  CC.search_inv self m0 st →
  dom test_clustering = dom (CC.clustering st) →
  ∃ st', CC.consider self test_clustering st = Some st'
         ∧ CC.search_inv self m0 st' ∧ CC.progress st st'.
Proof.
  intros Hinv Hdom. unfold CC.consider.
  destruct (proj2 (calculate_mistakes_is_Some self test_clustering) keyed)
    as [m Hm].
  rewrite Hm. simpl. eexists. split; [done|].
  destruct (decide (m < CC.min_mistakes st)%nat) as [Hlt|Hge].
  - destruct Hinv. split.
    + split; simpl; try done.
      * congruence.
      * by eapply descending_snoc.
      * destruct (CC.accepted st); [done|]. done.
      * by rewrite last_snoc.
    + unfold CC.progress. simpl. rewrite length_app. simpl.
      split; [lia|]. split; [lia|]. right. repeat split; lia.
  - split; [done | apply progress_refl].
Qed.
End search_facts.

(** Whatever the state, a candidate that does not raise leaves the state or
    commits a strictly lower count. *)
Lemma consider_progress self test_clustering st st' :
  CC.consider self test_clustering st = Some st' → CC.progress st st'.
Proof.
  unfold CC.consider.
  destruct (CC.calculate_mistakes self test_clustering) as [m|]; [|done].
  simpl. intros [= <-].
  destruct (decide _); [|apply progress_refl].
  unfold CC.progress. simpl. rewrite length_app. simpl.
  split; [lia|]. split; [lia|]. right. repeat split; lia.
Qed.

Lemma set_improved_inv self m0 b st :
  CC.search_inv self m0 st → CC.search_inv self m0 (CC.set_improved b st).
Proof. intros []. by split. Qed.

Lemma range_lt a b i : i ∈ Py.range a b → (a ≤ i < b)%nat.
Proof. unfold Py.range. rewrite elem_of_seq. lia. Qed.

Section rounds.
Context (label_list : CC.t → gmap Z Z → list Z) (self : CC.t) (m0 : nat).
Hypothesis keyed : CC.well_keyed self.

Lemma try_merge_spec current_clusters i j st :
  (i < length current_clusters)%nat → (j < length current_clusters)%nat →
  CC.search_inv self m0 st →
  ∃ st', CC.try_merge self current_clusters i j st = Some st'
         ∧ CC.search_inv self m0 st' ∧ CC.progress st st'.
Proof.
  intros Hi Hj Hinv. unfold CC.try_merge.
  destruct (lookup_lt_is_Some_2 _ _ Hi) as [a ->].
  destruct (lookup_lt_is_Some_2 _ _ Hj) as [b ->]. simpl.
  apply consider_spec; [done..|]. apply merge_into_dom.
Qed.

Lemma try_vertices_spec u v st :
  CC.search_inv self m0 st →
  ∃ st', CC.try_vertices self u v st = Some st'
         ∧ CC.search_inv self m0 st' ∧ CC.progress st st'.
Proof.
  intros Hinv. unfold CC.try_vertices.
  destruct (decide (u = v)); [eauto using progress_refl|].
  destruct (decide (_ = _)); [eauto using progress_refl|].
  apply consider_spec; [done..|]. apply merge_labels_dom.
Qed.

(** A round of the cluster-merge search does not raise. *)
Lemma greedy_round_spec st iterations :
  CC.search_inv self m0 st →
  ∃ st', CC.greedy_round label_list self (st, iterations)
         = Some (st', S iterations)
         ∧ CC.search_inv self m0 st'
         ∧ CC.progress (CC.set_improved false st) st'.
Proof.
  intros Hinv. unfold CC.greedy_round. cbn [fst snd].
  set (st0 := CC.set_improved false st).
  set (cc := label_list self (CC.clustering st0)).
  set (P := λ s, CC.search_inv self m0 s ∧ CC.progress st0 s).
  edestruct (for_each_total
               (λ st i, Py.for_each
                          (λ st j, CC.try_merge self cc i j st)
                          (Py.range (i + 1) (length cc)) st)
               P (Py.range 0 (length cc)) st0) as (st' & -> & Hinv' & Hp).
  - intros s i Hi%range_lt [Hs Hps].
    apply (for_each_total _ P); [|done].
    intros s1 j Hj%range_lt [Hs1 Hps1].
    destruct (try_merge_spec cc i j s1) as (s2 & -> & ? & ?); [lia..|done|].
    exists s2. split; [done|]. split; [done|]. by eapply progress_trans.
  - split; [by apply set_improved_inv | apply progress_refl].
  - simpl. eauto.
Qed.

(** A pass of the vertex-pair search does not raise. *)
Lemma simple_pass_spec st :
  CC.search_inv self m0 st →
  ∃ st', CC.simple_pass self st = Some st'
         ∧ CC.search_inv self m0 st'
         ∧ CC.progress (CC.set_improved false st) st'.
Proof.
  intros Hinv. unfold CC.simple_pass.
  set (st0 := CC.set_improved false st).
  set (P := λ s, CC.search_inv self m0 s ∧ CC.progress st0 s).
  edestruct (for_each_total
               (λ st u, Py.for_each (λ st v, CC.try_vertices self u v st)
                          (CC.vertices self) st)
               P (CC.vertices self) st0) as (st' & -> & Hinv' & Hp).
  - intros s u _ [Hs Hps].
    apply (for_each_total _ P); [|done].
    intros s1 v _ [Hs1 Hps1].
    destruct (try_vertices_spec u v s1) as (s2 & -> & ? & ?); [done|].
    exists s2. split; [done|]. split; [done|]. by eapply progress_trans.
  - split; [by apply set_improved_inv | apply progress_refl].
  - eauto.
Qed.
End rounds.

(** A pass that ends with the flag set has lowered the stored count and
    recorded a new accepted count. *)
Lemma progress_from_false st st' :
  CC.progress (CC.set_improved false st) st' →
  (CC.min_mistakes st' ≤ CC.min_mistakes st)%nat
  ∧ (length (CC.accepted st) ≤ length (CC.accepted st'))%nat
  ∧ (CC.improved st' = true →
     (CC.min_mistakes st' < CC.min_mistakes st)%nat
     ∧ (length (CC.accepted st) < length (CC.accepted st'))%nat).
Proof.
  unfold CC.progress. simpl. intros (? & ? & H). repeat split; try done.
  - destruct H as [H|(_ & ? & _)]; [congruence | done].
  - destruct H as [H|(_ & _ & ?)]; [congruence | done].
Qed.

Lemma try_vertices_progress self u v st st' :
  CC.try_vertices self u v st = Some st' → CC.progress st st'.
Proof.
  unfold CC.try_vertices.
  destruct (decide (u = v)); [intros [= <-]; apply progress_refl|].
  destruct (decide (_ = _)); [intros [= <-]; apply progress_refl|].
  apply consider_progress.
Qed.

Lemma simple_pass_progress self st st' :
  CC.simple_pass self st = Some st' →
  CC.progress (CC.set_improved false st) st'.
Proof.
  unfold CC.simple_pass.
  apply (for_each_invariant _ (CC.progress (CC.set_improved false st)));
    [|apply progress_refl].
  intros s u s' _ Hs.
  apply (for_each_invariant _ (CC.progress (CC.set_improved false st))); [|done].
  intros s1 v s2 _ Hs1 Hv. eapply progress_trans; [done|].
  by eapply try_vertices_progress.
Qed.

Lemma start_raises self :
  CC.calculate_mistakes self (CC.singleton_clustering self) = None →
  CC.start self = None.
Proof. intros H. unfold CC.start, CC._clone_clustering. by rewrite H. Qed.

Section runs.
Context (label_list : CC.t → gmap Z Z → list Z) (self : CC.t) (m0 : nat).
Hypothesis first_count :
  CC.calculate_mistakes self (CC.singleton_clustering self) = Some m0.

Lemma first_count_keyed : CC.well_keyed self.
Proof. eapply calculate_mistakes_is_Some. by eexists. Qed.

Local Abbreviation greedy_inv := (CC.greedy_inv self m0).

Lemma greedy_round_inv state :
  greedy_inv state → CC.greedy_cond self state = true →
  ∃ state', CC.greedy_round label_list self state = Some state'
            ∧ greedy_inv state'
            ∧ state'.2 = S state.2
            ∧ (CC.greedy_cond self state' = true →
               (CC.max_iterations self - 1 - state'.2
                < CC.max_iterations self - 1 - state.2)%nat).
Proof.
  destruct state as [st it]. unfold CC.greedy_inv, CC.greedy_cond.
  fold (CC.max_iterations self). cbn [fst snd].
  intros (Hinv & Hit & Hacc) [Himp Hlt%bool_decide_eq_true]%andb_true_iff.
  rewrite Himp in Hacc.
  destruct (greedy_round_spec label_list self m0 first_count_keyed st it Hinv)
    as (st' & -> & Hinv' & Hp%progress_from_false).
  destruct Hp as (_ & Hlen & Hflag).
  eexists. split; [done|]. cbn [fst snd].
  split; [split; [done|split; [lia|]] | split; [done|]].
  - destruct (CC.improved st'); [destruct Hflag; [done|lia] | lia].
  - intros [_ Hlt'%bool_decide_eq_true]%andb_true_iff. lia.
Qed.

(** The cluster-merge search with at least [max_iterations] rounds of
    fuel runs to the end of its loop. *)
Lemma greedy_search_spec fuel :
  (CC.max_iterations self ≤ fuel)%nat →
  ∃ st iterations,
    CC.greedy_search label_list fuel self = Py.Done (st, iterations) iterations
    ∧ CC.search_inv self m0 st
    ∧ (iterations ≤ CC.max_iterations self)%nat
    ∧ (CC.improved st = false ∨ iterations = CC.max_iterations self)
    ∧ (iterations ≤ length (CC.accepted st))%nat.
Proof.
  intros Hfuel. unfold CC.greedy_search.
  destruct (start_spec self m0 first_count)
    as (st0 & -> & Hinv0 & Himp0 & _ & _ & Hacc0).
  destruct (while_loop_terminates (CC.greedy_cond self)
              (CC.greedy_round label_list self)
              (λ state, CC.max_iterations self - 1 - state.2)%nat
              greedy_inv fuel 0%nat (st0, 0%nat))
    as ([st it] & p & Hrun & (Hinv & Hit & Hacc) & Hcond & _ & _).
  - intros s Hs Hc.
    destruct (greedy_round_inv s Hs Hc) as (s' & ? & ? & _ & ?). eauto.
  - unfold CC.greedy_inv. fold (CC.max_iterations self).
    cbn [fst snd]. rewrite Himp0, Hacc0. simpl.
    split; [done|lia].
  - unfold CC.greedy_cond. cbn [fst snd].
    intros [_ Hlt%bool_decide_eq_true]%andb_true_iff. lia.
  - assert (it = p) as <-.
    { apply (while_loop_invariant _ _ (λ s p, s.2 = p) _ _ _ _ _) in Hrun
        as [Hp _]; [done| |done].
      intros s q s' <- Hc Hb.
      destruct (CC.greedy_round label_list self s) as [s1|] eqn:E; [|done].
      unfold CC.greedy_round in E.
      destruct (Py.for_each _ _ _); simpl in E; [|done].
      injection E as <-. by injection Hb as <-. }
    exists st, it. cbn [fst snd] in *. rewrite Hrun.
    split; [done|]. split; [done|]. split; [done|]. split.
    + unfold CC.greedy_cond in Hcond. cbn [fst snd] in Hcond.
      apply andb_false_iff in Hcond as [?|Hn%bool_decide_eq_false];
        [by left | right; unfold CC.max_iterations in *; lia].
    + destruct (CC.improved st); lia.
Qed.

Lemma simple_pass_inv st :
  CC.search_inv self m0 st → CC.improved st = true →
  ∃ st', CC.simple_pass self st = Some st'
         ∧ CC.search_inv self m0 st'
         ∧ (CC.improved st' = true →
            (CC.min_mistakes st' < CC.min_mistakes st)%nat).
Proof.
  intros Hinv _.
  destruct (simple_pass_spec self m0 first_count_keyed st Hinv)
    as (st' & -> & Hinv' & Hp%progress_from_false).
  exists st'. split; [done|]. split; [done|]. intros H. by apply Hp.
Qed.

(** The vertex-pair search with more fuel than the first mistake count
    runs to the end of its loop, in at most that many passes plus one. *)
Lemma simple_search_spec fuel :
  (m0 < fuel)%nat →
  ∃ st passes,
    CC.simple_search fuel self = Py.Done st passes
    ∧ CC.search_inv self m0 st
    ∧ CC.improved st = false
    ∧ (passes ≤ m0 + 1)%nat.
Proof.
  intros Hfuel. unfold CC.simple_search.
  destruct (start_spec self m0 first_count)
    as (st0 & -> & Hinv0 & Himp0 & Hmin0 & _ & _).
  destruct (while_loop_terminates CC.improved (CC.simple_pass self)
              CC.min_mistakes (CC.search_inv self m0) fuel 0%nat st0)
    as (st & p & -> & Hinv & Hcond & _ & Hp).
  - intros s Hs Hc. by apply simple_pass_inv.
  - done.
  - intros _. lia.
  - exists st, p. split; [done|]. split; [done|]. split; [done|].
    rewrite Himp0, Hmin0 in Hp. lia.
Qed.
End runs.

(** More fuel does not change a search that did not run out of it. *)
Lemma while_loop_more_fuel_search label_list self fuel st passes :
  (CC.max_iterations self ≤ fuel)%nat →
  CC.greedy_search label_list fuel self = Py.Done st passes →
  CC.greedy_search label_list (CC.max_iterations self) self = Py.Done st passes.
Proof.
  intros Hfuel Hrun.
  destruct (CC.calculate_mistakes self (CC.singleton_clustering self))
    as [m0|] eqn:Hm.
  - destruct (greedy_search_spec label_list self m0 Hm (CC.max_iterations self))
      as (st' & it & Hrun' & _); [done|].
    rewrite Hrun'. rewrite <- Hrun. unfold CC.greedy_search in *.
    destruct (CC.start self); [|done].
    symmetry. eapply while_loop_more_fuel; [exact Hfuel|exact Hrun'|done].
  - unfold CC.greedy_search in Hrun. by rewrite (start_raises self Hm) in Hrun.
Qed.

Lemma descending_last_le (l : list nat) a b :
  StronglySorted gt l → head l = Some a → last l = Some b → (b ≤ a)%nat.
Proof.
  intros Hs Hh Hl. destruct Hs as [|x l Hs Hx]; [done|].
  injection Hh as ->. destruct l as [|y l'].
  - injection Hl as ->. lia.
  - rewrite last_cons_cons in Hl. apply last_Some_elem_of in Hl.
    rewrite Forall_forall in Hx. specialize (Hx b Hl). lia.
Qed.

Lemma search_inv_improving self m0 st :
  CC.calculate_mistakes self (CC.singleton_clustering self) = Some m0 →
  CC.search_inv self m0 st → CC.improving self st.
Proof.
  intros Hm []. exists m0. simpl. repeat split; try done.
  - congruence.
  - by eapply descending_last_le.
Qed.

(** C5: in every run of either local search the accepted mistake counts,
    starting with the count of the singleton partition, strictly decrease
    from one commit to the next, and the [mistakes] field of the returned
    [Clustering] is the last of them, so at most the count of the singleton
    partition.  A run raises only when the first call of
    [calculate_mistakes] raises. *)
Theorem accepted_counts_decrease
    (label_list : CC.t → gmap Z Z → list Z) (self : CC.t) :
  match CC.greedy_search label_list (CC.max_iterations self) self with
  | Py.Done state passes =>
      CC.greedy_correlation_clustering label_list self
      = Py.Done (CC.result state.1) passes
      ∧ CC.improving self state.1
  | Py.Raised =>
      CC.calculate_mistakes self (CC.singleton_clustering self) = None
  | Py.OutOfFuel => False
  end
  ∧ match CC.simple_search (CC.simple_fuel self) self with
    | Py.Done st passes =>
        CC.simple_greedy_clustering self = Py.Done (CC.result st) passes
        ∧ CC.improving self st
    | Py.Raised =>
        CC.calculate_mistakes self (CC.singleton_clustering self) = None
    | Py.OutOfFuel => False
    end.
Proof.
  destruct (CC.calculate_mistakes self (CC.singleton_clustering self))
    as [m0|] eqn:Hm.
  - split.
    + destruct (greedy_search_spec label_list self m0 Hm (CC.max_iterations self))
        as (st & it & Hrun & Hinv & _); [done|].
      unfold CC.greedy_correlation_clustering. rewrite Hrun.
      split; [done|]. by eapply search_inv_improving.
    + destruct (simple_search_spec self m0 Hm (CC.simple_fuel self))
        as (st & p & Hrun & Hinv & _).
      { unfold CC.simple_fuel. rewrite Hm. lia. }
      unfold CC.simple_greedy_clustering. rewrite Hrun.
      split; [done|]. by eapply search_inv_improving.
  - unfold CC.greedy_search, CC.simple_search.
    by rewrite (start_raises self Hm).
Qed.

(** C6: the cluster-merge search terminates on every input.  With at least
    |V|² rounds of fuel the loop never runs out: it raises at once or ends
    after a number of rounds that is at most |V|², that equals [iterations],
    and that is less than |V|² only if the last round committed no merge;
    every earlier round committed one, so the rounds are at most the accepted
    counts.  More fuel changes nothing. *)
Theorem greedy_search_terminates
    (label_list : CC.t → gmap Z Z → list Z) (self : CC.t) (fuel : nat) :
  (length (CC.vertices self) * length (CC.vertices self) ≤ fuel)%nat →
  CC.greedy_search label_list fuel self
  = CC.greedy_search label_list (CC.max_iterations self) self
  ∧ match CC.greedy_search label_list fuel self with
    | Py.Done state passes =>
        passes = state.2
        ∧ (passes ≤ length (CC.vertices self) * length (CC.vertices self))%nat
        ∧ (CC.improved state.1 = false
           ∨ passes = (length (CC.vertices self) * length (CC.vertices self))%nat)
        ∧ (passes ≤ length (CC.accepted state.1))%nat
    | Py.Raised =>
        CC.calculate_mistakes self (CC.singleton_clustering self) = None
    | Py.OutOfFuel => False
    end.
Proof.
  intros Hfuel. fold (CC.max_iterations self) in *.
  destruct (CC.calculate_mistakes self (CC.singleton_clustering self))
    as [m0|] eqn:Hm.
  - destruct (greedy_search_spec label_list self m0 Hm fuel Hfuel)
      as (st & it & Hrun & _ & Hit & Hstop & Hacc).
    rewrite Hrun. split; [|done].
    symmetry. eapply while_loop_more_fuel_search; done.
  - unfold CC.greedy_search. by rewrite (start_raises self Hm).
Qed.

Lemma greedy_search_terminates_witness :
  (length (CC.vertices scenario) * length (CC.vertices scenario) ≤ 30)%nat
  ∧ CC.greedy_search ascending_labels 30 scenario
    = CC.greedy_search ascending_labels (CC.max_iterations scenario) scenario.
Proof.
  assert (length (CC.vertices scenario) * length (CC.vertices scenario) ≤ 30)%nat
    as H by (change (5 * 5 ≤ 30)%nat; lia).
  split; [exact H|].
  pose proof (greedy_search_terminates ascending_labels scenario 30 H) as T.
  destruct T as [E _]. exact E.
Defined.

(** C10: the vertex-pair search terminates on every input although its loop
    has no cap.  A pass that ends with [changed] set has strictly lowered
    [min_mistakes]; so with more fuel than the mistake count of the singleton
    partition the loop never runs out, and it ends after at most that count
    plus one passes.  When the first call of [calculate_mistakes] raises, the
    search raises. *)
Theorem simple_search_terminates (self : CC.t) :
  (∀ st st', CC.simple_pass self st = Some st' → CC.improved st' = true →
             (CC.min_mistakes st' < CC.min_mistakes st)%nat)
  ∧ match CC.calculate_mistakes self (CC.singleton_clustering self) with
    | Some m0 =>
        ∀ fuel, (m0 < fuel)%nat →
          ∃ st passes,
            CC.simple_search fuel self = Py.Done st passes
            ∧ CC.improved st = false
            ∧ (passes ≤ m0 + 1)%nat
    | None => ∀ fuel, CC.simple_search fuel self = Py.Raised
    end.
Proof.
  split.
  - intros st st' Hpass%simple_pass_progress%progress_from_false Himp.
    by apply Hpass.
  - destruct (CC.calculate_mistakes self (CC.singleton_clustering self))
      as [m0|] eqn:Hm.
    + intros fuel Hfuel.
      destruct (simple_search_spec self m0 Hm fuel Hfuel)
        as (st & p & Hrun & _ & Himp & Hp).
      by exists st, p.
    + intros fuel. unfold CC.simple_search. by rewrite (start_raises self Hm).
Qed.

Lemma scenario_first_count :
  CC.calculate_mistakes scenario (CC.singleton_clustering scenario) = Some 3%nat.
Proof. vm_compute. reflexivity. Qed.

Lemma simple_search_terminates_witness :
  (3 < 10)%nat
  ∧ ∃ st passes,
      CC.simple_search 10 scenario = Py.Done st passes
      ∧ CC.improved st = false ∧ (passes ≤ 3 + 1)%nat.
Proof.
  split; [lia|].
  pose proof (simple_search_terminates scenario) as [_ H].
  rewrite scenario_first_count in H. apply H. lia.
Defined.

(** ** Fewer than two vertices *)





Section constant_count.
Context (self : CC.t) (m : nat).
Hypothesis constant : ∀ clustering, CC.calculate_mistakes self clustering = Some m.



End constant_count.


Lemma negative_loop_runs :
  (Clustering.mistakes <$>
     match CC.greedy_correlation_clustering ascending_labels negative_loop with
     | Py.Done r _ => Some r | _ => None end) = Some 1%nat
  ∧ (Clustering.mistakes <$>
       match CC.simple_greedy_clustering negative_loop with
       | Py.Done r _ => Some r | _ => None end) = Some 1%nat.
Proof. split; vm_compute; reflexivity. Qed.



(** ** Validation *)

(** C9: for every graph and clustering, [validate_clustering] returns true
    if and only if the keys of the clustering are exactly the vertices of the
    graph; the labels play no part, two clusterings with the same keys get
    the same answer. *)
Theorem validate_clustering_keys (self : CC.t) (clustering : gmap Z Z) :
  (CC.validate_clustering self clustering = true
   ↔ ∀ v, v ∈ CC.vertices self ↔ is_Some (clustering !! v))
  ∧ ∀ clustering' : gmap Z Z,
      dom clustering' = dom clustering →
      CC.validate_clustering self clustering'
      = CC.validate_clustering self clustering.
Proof.
  unfold CC.validate_clustering. split.
  - rewrite bool_decide_eq_true, set_eq.
    apply forall_proper. intros v.
    by rewrite elem_of_list_to_set, elem_of_dom.
  - by intros c' ->.
Qed.

Lemma validate_clustering_keys_witness :
  CC.validate_clustering scenario (CC.merge_into 1 2 (CC.singleton_clustering scenario))
  = CC.validate_clustering scenario (CC.singleton_clustering scenario).
Proof.
  apply (validate_clustering_keys scenario (CC.singleton_clustering scenario)).
  apply merge_into_dom.
Defined.

(** ** The solution interpreter *)

Lemma scan_lookup self lp_solution vertex cluster_id clustering w :
  LP.scan self lp_solution vertex cluster_id clustering !! w =
  if decide (w ∈ LP.vertices self ∧ w ≠ vertex
             ∧ LP.close (LP.z_value lp_solution vertex w) = true)
  then Some cluster_id else clustering !! w.
Proof.
  unfold LP.scan. generalize (LP.vertices self). intros l. revert clustering.
  induction l as [|x l IH]; intros c; cbn [foldl].
  - rewrite decide_False; [done|]. by intros [?%elem_of_nil _].
  - rewrite IH. clear IH.
    destruct (decide (w ∈ l ∧ _)) as [(Hl & Hw & Hc)|Hn].
    + rewrite decide_True; [done|]. repeat split; [by right|done..].
    + destruct (decide (w = x)) as [->|Hwx].
      * destruct (decide (vertex = x)) as [->|Hvx].
        -- rewrite decide_False; [done|]. by intros (_ & ? & _).
        -- destruct (LP.close _) eqn:Hc.
           ++ rewrite lookup_insert_eq, decide_True; [done|].
              repeat split; [by left|done].
           ++ rewrite decide_False; [done|]. intros (_ & _ & ?). congruence.
      * rewrite (decide_False (P := w ∈ x :: l ∧ _)).
        -- destruct (decide (vertex = x)); [done|].
           destruct (LP.close (LP.z_value lp_solution vertex x));
             [by rewrite lookup_insert_ne | reflexivity].
        -- intros ([?|?]%elem_of_cons & ? & ?); [done|]. by apply Hn.
Qed.

(** The test made on a pair: the value read is present, under the name of
    the pair in this order or else in the other, is not the sentinel -1,
    and is below one half. *)
Lemma close_value lp_solution vertex other :
  LP.close (LP.z_value lp_solution vertex other) = true
  ↔ ∃ z : Q,
      (lp_solution !! LP.z_name vertex other = Some z
       ∨ (lp_solution !! LP.z_name vertex other = None
          ∧ lp_solution !! LP.z_name other vertex = Some z))
      ∧ ¬ (z == -1)%Q ∧ (z < 1 # 2)%Q.
Proof.
  assert (∀ z, LP.close z = true ↔ ¬ (z == -1)%Q ∧ (z < 1 # 2)%Q) as Hclose.
  { intros z. unfold LP.close.
    rewrite andb_true_iff, !negb_true_iff.
    rewrite <- !not_true_iff_false, Qeq_bool_iff, Qle_bool_iff.
    split; intros [? ?]; (split; [done|]).
    - by apply Qnot_le_lt.
    - by apply Qlt_not_le. }
  rewrite Hclose. unfold LP.z_value.
  destruct (lp_solution !! LP.z_name vertex other) as [z|] eqn:E1; simpl.
  - split.
    + intros ?. exists z. auto.
    + intros (z' & [[= <-]|[[=] _]] & ?). done.
  - destruct (lp_solution !! LP.z_name other vertex) as [z|] eqn:E2; simpl.
    + split.
      * intros ?. exists z. auto.
      * intros (z' & [[=]|[_ [= <-]]] & ?). done.
    + split.
      * intros [H _]. by destruct H.
      * intros (z' & [[=]|[_ [=]]] & _).
Qed.

(** C3, as stated, fails: on the path 1 - 2 - 3 vertex 2 joins the cluster
    of 1, and is moved to the cluster that 3 opens later. *)
Lemma no_reassignment_as_stated_fails : ¬ no_reassignment_as_stated.
Proof.
  intros H.
  specialize (H path_graph path_solution [1; 2] [] 3 2 0 eq_refl).
  simpl in H.
  assert (Some 1 = Some 0) as [=].
  apply H; vm_compute; reflexivity.
Qed.

(** C3, amended: in [interpret_solution], a vertex that has no cluster yet
    opens a new one, labelled with the next sequential id, and then every
    other vertex of the graph is scanned, whether it already has a cluster or
    not: it is put into the new cluster, leaving its earlier cluster if it
    had one, exactly when the value of its edge variable is present in the
    solution map (under the name of the pair in either order), is not -1 and
    is below 0.5; all other entries stay as they were.  A vertex that
    already has a cluster opens nothing. *)
Theorem visit_opens_cluster
    (self : LP.t) (lp_solution : gmap string Q)
    (clustering : gmap Z Z) (cluster_id : Z) (vertex : Z) :
  clustering !! vertex = None →
  (LP.visit self lp_solution (clustering, cluster_id) vertex).2 = cluster_id + 1
  ∧ (LP.visit self lp_solution (clustering, cluster_id) vertex).1 !! vertex
    = Some cluster_id
  ∧ (∀ other : Z,
       LP.joins self lp_solution vertex other →
       (LP.visit self lp_solution (clustering, cluster_id) vertex).1 !! other
       = Some cluster_id)
  ∧ (∀ other : Z,
       other ≠ vertex → ¬ LP.joins self lp_solution vertex other →
       (LP.visit self lp_solution (clustering, cluster_id) vertex).1 !! other
       = clustering !! other)
  ∧ (∀ state : gmap Z Z * Z,
       is_Some (state.1 !! vertex) →
       LP.visit self lp_solution state vertex = state).
Proof.
  intros Hnew.
  assert (∀ w, LP.joins self lp_solution vertex w
               ↔ w ∈ LP.vertices self ∧ w ≠ vertex
                 ∧ LP.close (LP.z_value lp_solution vertex w) = true) as Hj.
  { intros w. unfold LP.joins. by rewrite close_value. }
  unfold LP.visit. cbn [fst snd]. rewrite Hnew. cbn [fst snd].
  split; [done|]. split; [|split; [|split]].
  - rewrite scan_lookup, decide_False by (by intros (_ & ? & _)).
    apply lookup_insert_eq.
  - intros w Hw%Hj. rewrite scan_lookup. by rewrite decide_True.
  - intros w Hne Hw. rewrite scan_lookup, decide_False by (by rewrite <- Hj).
    by rewrite lookup_insert_ne.
  - intros state [c ->]. done.
Qed.

Lemma visit_opens_cluster_witness :
  (<[2 := 0]> (<[1 := 0]> (∅ : gmap Z Z))) !! 3 = None
  ∧ (LP.visit path_graph path_solution (<[2 := 0]> (<[1 := 0]> ∅), 1) 3).2 = 1 + 1.
Proof.
  split; [reflexivity|].
  apply (visit_opens_cluster path_graph path_solution
           (<[2 := 0]> (<[1 := 0]> ∅)) 1 3).
  reflexivity.
Defined.

(** ** The LP formulator *)

Lemma str_inj z z' : Py.str z = Py.str z' → z = z'.
Proof.
  intros H. apply (f_equal Py.int) in H. rewrite !int_str in H. congruence.
Qed.

(** No numeral holds an underscore, the separator of the variable names. *)
Lemma contains_underscore_str z : Py.contains "_" (Py.str z) = false.
Proof.
  destruct (Z.neg_nonneg_cases z) as [Hneg|Hpos]; [|by apply contains_str_nonneg].
  destruct z as [|p|p]; [lia..|].
  unfold Py.str. cbn [Z.to_int NilZero.string_of_int]. rewrite contains_cons.
  change (Ascii.eqb "-" "_") with false. cbn [orb].
  unfold NilZero.string_of_uint.
  pose proof (contains_uint "_" (Pos.to_uint p) eq_refl) as H.
  by destruct (Pos.to_uint p).
Qed.

Lemma split_edge_name u v :
  Py.split "_" (LP.edge_name u v) = [Py.str u; Py.str v].
Proof.
  unfold LP.edge_name.
  change ("_" +:+ Py.str v) with (String "_" (Py.str v)).
  rewrite split_app_sep by apply contains_underscore_str.
  by rewrite split_no_sep by apply contains_underscore_str.
Qed.

(** Distinct ordered pairs have distinct names. *)
Lemma edge_name_inj u v u' v' :
  LP.edge_name u v = LP.edge_name u' v' → u = u' ∧ v = v'.
Proof.
  intros H. apply (f_equal (Py.split "_")) in H.
  rewrite !split_edge_name in H. injection H as Hu Hv.
  split; by apply str_inj.
Qed.

Lemma z_name_inj e e' :
  LP.z_name e.1 e.2 = LP.z_name e'.1 e'.2 → e = e'.
Proof.
  unfold LP.z_name. intros H. injection H as H.
  apply edge_name_inj in H as [? ?]. destruct e, e'; simpl in *; congruence.
Qed.

Lemma add_variables_spec coefficient (l : list (Z * Z)) f :
  let f' := foldl (LP.add_variable coefficient) f l in
  LP.objective_coefficients f'
  = (LP.objective_coefficients f ++ replicate (length l) coefficient)%list
  ∧ LP.variable_bounds f'
    = (LP.variable_bounds f ++ replicate (length l) (LP.Bounds 0 1))%list
  ∧ LP.variable_names f'
    = (LP.variable_names f ++ map (λ e, LP.z_name e.1 e.2) l)%list
  ∧ LP.variable_index f' = (LP.variable_index f + length l)%nat
  ∧ LP.constraint_coefficients f' = LP.constraint_coefficients f
  ∧ LP.rhs f' = LP.rhs f
  ∧ LP.constraint_types f' = LP.constraint_types f
  ∧ (LP.indices_in_range f → LP.indices_in_range f').
Proof.
  revert f. induction l as [|[u v] l IH]; intros f;
    cbn [foldl length replicate map fst snd].
  - rewrite !app_nil_r, Nat.add_0_r. repeat (split; [reflexivity|]). auto.
  - destruct (IH (LP.add_variable coefficient f (u, v)))
      as (-> & -> & -> & -> & -> & -> & -> & Hr).
    simpl. rewrite <- !app_assoc. simpl.
    repeat (split; [reflexivity || lia|]). intros Hf. apply Hr.
    unfold LP.indices_in_range in *. simpl.
    apply map_Forall_insert_2; [lia|].
    eapply map_Forall_impl; [exact Hf|]. simpl. intros; lia.
Qed.

Lemma setitem_in_range {A : Type} (l : list A) i x :
  0 <= i < Z.of_nat (length l) →
  ∃ l', Py.setitem l i x = Some l' ∧ length l' = length l.
Proof.
  intros Hi. unfold Py.setitem. rewrite decide_True by done.
  eexists. split; [done|]. apply length_insert.
Qed.

Lemma index_of_range f a b :
  LP.indices_in_range f →
  LP.index_of f a b = -1
  ∨ 0 <= LP.index_of f a b < Z.of_nat (LP.variable_index f).
Proof.
  intros Hf. unfold LP.index_of, Py.or_else.
  assert (∀ k, default (-1) (LP.edge_variable_index f !! k) = -1
               ∨ 0 <= default (-1) (LP.edge_variable_index f !! k)
                 < Z.of_nat (LP.variable_index f)) as Hd.
  { intros k. destruct (LP.edge_variable_index f !! k) as [i|] eqn:E; simpl.
    - right. by apply (Hf k i).
    - by left. }
  destruct (LP.edge_variable_index f !! LP.edge_name a b) as [i|] eqn:E.
  - destruct (decide (i = 0)); [apply Hd|]. right.
    by apply (Hf (LP.edge_name a b) i).
  - apply Hd.
Qed.

Lemma row_spec f i1 i2 i3 a b c :
  0 <= i1 < Z.of_nat (LP.variable_index f) →
  0 <= i2 < Z.of_nat (LP.variable_index f) →
  0 <= i3 < Z.of_nat (LP.variable_index f) →
  ∃ r, LP.row f i1 i2 i3 a b c = Some r ∧ length r = LP.variable_index f.
Proof.
  intros H1 H2 H3. unfold LP.row.
  destruct (setitem_in_range (replicate (LP.variable_index f) 0) i1 a)
    as (r1 & -> & L1); [by rewrite length_replicate|].
  rewrite length_replicate in L1. simpl.
  destruct (setitem_in_range r1 i2 b) as (r2 & -> & L2); [by rewrite L1|].
  simpl.
  destruct (setitem_in_range r2 i3 c) as (r3 & -> & L3); [by rewrite L2, L1|].
  exists r3. split; [done|]. congruence.
Qed.

Lemma emit_ok base f r :
  LP.constraints_ok base f → length r = LP.variable_index base →
  LP.constraints_ok base (LP.emit r f).
Proof.
  intros [] Hr. split; simpl; try done.
  - apply Forall_app. by repeat constructor.
  - apply Forall_app. by repeat constructor.
  - apply Forall_app. by repeat constructor.
  - rewrite !length_app. simpl. lia.
  - rewrite !length_app. simpl. lia.
Qed.

Section triples.
Context (self : LP.t) (base : LP.formulation).
Hypothesis base_range : LP.indices_in_range base.

Lemma ok_in_range f : LP.constraints_ok base f → LP.indices_in_range f.
Proof.
  intros Hf. unfold LP.indices_in_range.
  rewrite (LP.ok_index_map _ _ Hf), (LP.ok_index _ _ Hf). exact base_range.
Qed.

(** The body of the triple loop does not raise. *)
Lemma triple_spec i j k f :
  (i < length (LP.vertices self))%nat →
  (j < length (LP.vertices self))%nat →
  (k < length (LP.vertices self))%nat →
  LP.constraints_ok base f →
  ∃ f', LP.triple self i j k f = Some f' ∧ LP.constraints_ok base f'.
Proof.
  intros Hi Hj Hk Hf. unfold LP.triple.
  destruct (lookup_lt_is_Some_2 _ _ Hi) as [vi ->].
  destruct (lookup_lt_is_Some_2 _ _ Hj) as [vj ->].
  destruct (lookup_lt_is_Some_2 _ _ Hk) as [vk ->]. simpl.
  destruct (decide _) as [|Hn]; [eauto|].
  pose proof (ok_in_range f Hf) as Hr.
  pose proof (LP.ok_index _ _ Hf) as Hidx.
  destruct (index_of_range f vi vj Hr) as [?|Hij]; [tauto|].
  destruct (index_of_range f vi vk Hr) as [?|Hik]; [tauto|].
  destruct (index_of_range f vj vk Hr) as [?|Hjk]; [tauto|].
  destruct (row_spec f _ _ _ 1 (-1) (-1) Hij Hik Hjk) as (r1 & -> & L1).
  simpl.
  destruct (row_spec (LP.emit r1 f) _ _ _ (-1) 1 (-1) Hij Hik Hjk)
    as (r2 & -> & L2). simpl.
  destruct (row_spec (LP.emit r2 (LP.emit r1 f)) _ _ _ (-1) (-1) 1 Hij Hik Hjk)
    as (r3 & -> & L3). simpl in *.
  eexists. split; [done|].
  repeat apply emit_ok; (done || congruence).
Qed.

Lemma triples_spec f0 :
  LP.constraints_ok base f0 →
  ∃ f,
    Py.for_each
      (λ f i,
         Py.for_each
           (λ f j,
              Py.for_each (λ f k, LP.triple self i j k f)
                (Py.range (j + 1) (length (LP.vertices self))) f)
           (Py.range (i + 1) (length (LP.vertices self))) f)
      (Py.range 0 (length (LP.vertices self))) f0 = Some f
    ∧ LP.constraints_ok base f.
Proof.
  intros Hf0.
  apply (for_each_total _ (LP.constraints_ok base)); [|done].
  intros f1 i Hi%range_lt Hf1.
  apply (for_each_total _ (LP.constraints_ok base)); [|done].
  intros f2 j Hj%range_lt Hf2.
  apply (for_each_total _ (LP.constraints_ok base)); [|done].
  intros f3 k Hk%range_lt Hf3.
  apply triple_spec; (done || lia).
Qed.
End triples.

Lemma constraints_ok_refl f :
  LP.constraint_coefficients f = [] → LP.rhs f = [] →
  LP.constraint_types f = [] → LP.constraints_ok f f.
Proof. intros H1 H2 H3. split; rewrite ?H1, ?H2, ?H3; done. Qed.

Lemma variables_spec self :
  let f := LP.variables self in
  LP.objective_coefficients f
  = (replicate (length (LP.positive_edges self)) 1
     ++ replicate (length (LP.negative_edges self)) (-1))%list
  ∧ LP.variable_bounds f
    = replicate (length (LP.positive_edges self)
                 + length (LP.negative_edges self)) (LP.Bounds 0 1)
  ∧ LP.variable_names f
    = map (λ e, LP.z_name e.1 e.2)
        (LP.positive_edges self ++ LP.negative_edges self)%list
  ∧ LP.variable_index f
    = (length (LP.positive_edges self) + length (LP.negative_edges self))%nat
  ∧ LP.constraints_ok f f
  ∧ LP.indices_in_range f.
Proof.
  unfold LP.variables.
  destruct (add_variables_spec 1 (LP.positive_edges self) LP.empty)
    as (O1 & B1 & N1 & I1 & C1 & R1 & T1 & G1).
  destruct (add_variables_spec (-1) (LP.negative_edges self)
              (foldl (LP.add_variable 1) LP.empty (LP.positive_edges self)))
    as (O2 & B2 & N2 & I2 & C2 & R2 & T2 & G2).
  simpl in *. rewrite O2, B2, N2, I2, O1, B1, N1, I1. simpl.
  rewrite replicate_add, map_app.
  do 4 (split; [reflexivity|]). split.
  - apply constraints_ok_refl; congruence.
  - apply G2, G1. apply map_Forall_empty.
Qed.

(** C7: for every graph whose positive and negative edge lists are disjoint
    and free of duplicates, [formulate_lp] returns a formulation with exactly
    |E+| + |E-| variables, one distinct name per edge; the objective
    coefficient is 1 for each positive-edge variable and -1 for each
    negative-edge variable, every variable has the bounds [0, 1], every
    right-hand side is 0, every constraint type is "<=", and the right-hand
    sides and the types are as many as the constraint rows. *)
Theorem formulate_lp_variables (self : LP.t) :
  NoDup (LP.positive_edges self ++ LP.negative_edges self)%list →
  ∃ f : LP.formulation,
    LP.formulate_lp self = Some f
    ∧ length (LP.variable_names f)
      = (length (LP.positive_edges self) + length (LP.negative_edges self))%nat
    ∧ NoDup (LP.variable_names f)
    ∧ LP.variable_names f
      = map (λ e, LP.z_name e.1 e.2)
          (LP.positive_edges self ++ LP.negative_edges self)%list
    ∧ LP.objective_coefficients f
      = (replicate (length (LP.positive_edges self)) 1
         ++ replicate (length (LP.negative_edges self)) (-1))%list
    ∧ LP.variable_bounds f
      = replicate (length (LP.positive_edges self)
                   + length (LP.negative_edges self)) (LP.Bounds 0 1)
    ∧ Forall (λ b, b = 0) (LP.rhs f)
    ∧ Forall (λ ty, ty = "<=") (LP.constraint_types f)
    ∧ length (LP.rhs f) = length (LP.constraint_coefficients f)
    ∧ length (LP.constraint_types f) = length (LP.constraint_coefficients f).
Proof.
  intros Hnodup.
  destruct (variables_spec self) as (Ho & Hb & Hn & Hi & Hok & Hr).
  destruct (triples_spec self (LP.variables self) Hr (LP.variables self) Hok)
    as (f & Hrun & []).
  exists f. split; [exact Hrun|].
  rewrite ok_names, ok_objective, ok_bounds, Hn, Ho, Hb.
  repeat split; try done.
  - by rewrite length_map, length_app.
  - apply NoDup_fmap_2; [|done]. intros e e'. apply z_name_inj.
Qed.

Lemma formulate_lp_variables_witness :
  ∃ f : LP.formulation,
    LP.formulate_lp shifted_triangle = Some f
    ∧ length (LP.variable_names f) = (4 + 0)%nat.
Proof.
  assert (NoDup (LP.positive_edges shifted_triangle
                 ++ LP.negative_edges shifted_triangle)%list) as H.
  { apply (bool_decide_unpack (NoDup _)). vm_compute. exact I. }
  destruct (formulate_lp_variables shifted_triangle H) as (f & Hf & Hlen & _).
  exists f. split; [exact Hf | exact Hlen].
Defined.

(** The lookup of an edge whose variable has index 0, the reversed name
    being absent: the index is taken for a missing entry. *)
Lemma index_of_first f a b :
  LP.edge_variable_index f !! LP.edge_name a b = Some 0 →
  LP.edge_variable_index f !! LP.edge_name b a = None →
  LP.index_of f a b = -1.
Proof. intros H1 H2. unfold LP.index_of. by rewrite H1, H2. Qed.

(** C2 at the triangle on 1, 2, 3 given as positive edges (1,2), (1,3),
    (2,3): all three edges have variables, yet [formulate_lp] emits no
    constraint row, because the index 0 of (1,2) is read as a missing edge.
    With the same three edges at the indices 1, 2, 3 the three rows are
    emitted. *)
Theorem triangle_without_constraints :
  (LP.variable_names <$> LP.formulate_lp triangle)
  = Some ["z_1_2"; "z_1_3"; "z_2_3"]
  ∧ (LP.constraint_coefficients <$> LP.formulate_lp triangle) = Some []
  ∧ LP.index_of (LP.variables triangle) 1 2 = -1
  ∧ (LP.constraint_coefficients <$> LP.formulate_lp shifted_triangle)
    = Some [[0; 1; -1; -1]; [0; -1; 1; -1]; [0; -1; -1; 1]].
Proof. repeat split; vm_compute; reflexivity. Qed.

(** * Further properties

    ** What the searches return *)

Lemma size_union_singleton_le (x : Z) (X : gset Z) :
  (size ({[x]} ∪ X) ≤ S (size X))%nat.
Proof.
  destruct (decide (x ∈ X)) as [Hx|Hx].
  - replace ({[x]} ∪ X) with X; [lia|]. apply set_eq. intros y.
    rewrite elem_of_union, elem_of_singleton. split; [by right | by intros [->|?]].
  - rewrite size_union, size_singleton; [lia|].
    intros y ->%elem_of_singleton. done.
Qed.

Lemma size_list_to_set_le (l : list Z) :
  (size (list_to_set l : gset Z) ≤ length l)%nat.
Proof.
  induction l as [|x l IH].
  - change (size (∅ : gset Z) ≤ 0)%nat. by rewrite size_empty.
  - change (size ({[x]} ∪ list_to_set l : gset Z) ≤ S (length l))%nat.
    pose proof (size_union_singleton_le x (list_to_set l)). lia.
Qed.

Lemma size_map_img_le (m : gmap Z Z) :
  (size (map_img m : gset Z) ≤ size (dom m : gset Z))%nat.
Proof.
  induction m as [|i x m Hi IH] using map_ind.
  - by rewrite map_img_empty_L, dom_empty_L.
  - rewrite map_img_insert_notin_L, dom_insert_L by done.
    rewrite (size_union {[i]}), size_singleton.
    + pose proof (size_union_singleton_le x (map_img m)). lia.
    + intros y ->%elem_of_singleton. by apply not_elem_of_dom.
Qed.

(** The number of clusters of a clustering whose keys are the vertices. *)
Lemma cluster_count_bounds self (clustering : gmap Z Z) :
  dom clustering = (list_to_set (CC.vertices self) : gset Z) →
  (CC._get_cluster_count clustering ≤ length (CC.vertices self))%nat
  ∧ (CC.vertices self ≠ [] → (1 ≤ CC._get_cluster_count clustering)%nat).
Proof.
  intros Hdom. unfold CC._get_cluster_count. split.
  - pose proof (size_map_img_le clustering) as H. rewrite Hdom in H.
    pose proof (size_list_to_set_le (CC.vertices self)). lia.
  - intros Hne.
    destruct (CC.vertices self) as [|v l] eqn:E; [done|].
    assert (v ∈ dom clustering) as [c Hc]%elem_of_dom.
    { rewrite Hdom. apply elem_of_list_to_set. by left. }
    assert (c ∈ (map_img clustering : gset Z)) as Hin
      by by eapply elem_of_map_img_2.
    destruct (size (map_img clustering : gset Z)) eqn:Hs; [|lia].
    apply size_empty_inv in Hs. rewrite Hs in Hin.
    by apply elem_of_empty in Hin.
Qed.

(** What a state of a search gives for the record built from it. *)
Lemma search_inv_result self m0 st :
  CC.search_inv self m0 st →
  CC.validate_clustering self (Clustering.clustering (CC.result st)) = true
  ∧ CC.calculate_mistakes self (Clustering.clustering (CC.result st))
    = Some (Clustering.mistakes (CC.result st))
  ∧ (Nat.min 1 (length (CC.vertices self))
     ≤ Clustering.cluster_count (CC.result st)
     ≤ length (CC.vertices self))%nat.
Proof.
  intros []. simpl. rewrite inv_best.
  split; [|split; [done|]].
  - unfold CC.validate_clustering. by apply bool_decide_eq_true.
  - destruct (cluster_count_bounds self (CC.clustering st) inv_dom) as [Hle Hge].
    split; [|done]. destruct (CC.vertices self); [simpl; lia|].
    specialize (Hge ltac:(done)). simpl. lia.
Qed.

(** X1: whatever the graph, a [Clustering] returned by the cluster-merge
    search passes [validate_clustering], its [mistakes] field is what
    [calculate_mistakes] returns for its clustering, and its [cluster_count]
    is at most the number of vertices and at least 1 when there is a
    vertex. *)
Theorem greedy_result_consistent
    (label_list : CC.t → gmap Z Z → list Z) (self : CC.t) :
  match CC.greedy_correlation_clustering label_list self with
  | Py.Done r _ =>
      CC.validate_clustering self (Clustering.clustering r) = true
      ∧ CC.calculate_mistakes self (Clustering.clustering r)
        = Some (Clustering.mistakes r)
      ∧ (Nat.min 1 (length (CC.vertices self))
         ≤ Clustering.cluster_count r
         ≤ length (CC.vertices self))%nat
  | Py.Raised =>
      CC.calculate_mistakes self (CC.singleton_clustering self) = None
  | Py.OutOfFuel => False
  end.
Proof.
  unfold CC.greedy_correlation_clustering.
  destruct (CC.calculate_mistakes self (CC.singleton_clustering self))
    as [m0|] eqn:Hm.
  - destruct (greedy_search_spec label_list self m0 Hm (CC.max_iterations self))
      as (st & it & -> & Hinv & _); [done|].
    by eapply search_inv_result.
  - unfold CC.greedy_search. by rewrite (start_raises self Hm).
Qed.

(** X2: the same for the vertex-pair search. *)
Theorem simple_result_consistent (self : CC.t) :
  match CC.simple_greedy_clustering self with
  | Py.Done r _ =>
      CC.validate_clustering self (Clustering.clustering r) = true
      ∧ CC.calculate_mistakes self (Clustering.clustering r)
        = Some (Clustering.mistakes r)
      ∧ (Nat.min 1 (length (CC.vertices self))
         ≤ Clustering.cluster_count r
         ≤ length (CC.vertices self))%nat
  | Py.Raised =>
      CC.calculate_mistakes self (CC.singleton_clustering self) = None
  | Py.OutOfFuel => False
  end.
Proof.
  unfold CC.simple_greedy_clustering.
  destruct (CC.calculate_mistakes self (CC.singleton_clustering self))
    as [m0|] eqn:Hm.
  - destruct (simple_search_spec self m0 Hm (CC.simple_fuel self))
      as (st & p & -> & Hinv & _).
    { unfold CC.simple_fuel. rewrite Hm. lia. }
    by eapply search_inv_result.
  - unfold CC.simple_search. by rewrite (start_raises self Hm).
Qed.

(** ** More on the mistake evaluator *)

Lemma for_each_ext {A St : Type} (body body' : St → A → option St) l s :
  (∀ s x, x ∈ l → body s x = body' s x) →
  Py.for_each body l s = Py.for_each body' l s.
Proof.
  revert s. induction l as [|x l IH]; intros s H; simpl; [done|].
  rewrite (H s x) by by left.
  destruct (body' s x); simpl; [|done]. apply IH. intros s' y Hy. apply H. by right.
Qed.

(** Clusterings that put the same pairs of ids together are counted alike. *)
Lemma calculate_mistakes_partition_eq
    (self : CC.t) (clustering clustering' : gmap Z Z) :
  (∀ u v : Z, clustering !! u = clustering !! v
              ↔ clustering' !! u = clustering' !! v) →
  CC.calculate_mistakes self clustering
  = CC.calculate_mistakes self clustering'.
Proof.
  intros Hsame.
  assert (∀ u v, CC.agree (clustering !! u) (clustering !! v)
                 = CC.agree (clustering' !! u) (clustering' !! v)) as Ha.
  { intros u v. unfold CC.agree. apply bool_decide_ext, Hsame. }
  assert (∀ f n k,
            (∀ u v, f (clustering !! u) (clustering !! v)
                    = f (clustering' !! u) (clustering' !! v)) →
            CC.count_step f clustering n k = CC.count_step f clustering' n k)
    as Hstep.
  { intros f n k Hf. unfold CC.count_step.
    destruct (CC.unpack_edge k) as [[u v]|]; [|done]. simpl. by rewrite Hf. }
  unfold CC.calculate_mistakes.
  rewrite (for_each_ext (CC.count_step CC.differ clustering)
             (CC.count_step CC.differ clustering')).
  - destruct (Py.for_each _ _ _) as [m|]; [|done]. simpl.
    apply for_each_ext. intros n k _. by apply Hstep.
  - intros n k _. apply Hstep. intros u v. unfold CC.differ.
    f_equal. apply Ha.
Qed.

(** X3: the count depends on the clustering only through which ids carry the
    same label: two clusterings that put the same pairs of ids together get
    the same answer from [calculate_mistakes], whatever labels they use. *)
Theorem calculate_mistakes_same_partition
    (self : CC.t) (clustering clustering' : gmap Z Z) :
  (∀ u v : Z, clustering !! u = clustering !! v
              ↔ clustering' !! u = clustering' !! v) →
  CC.calculate_mistakes self clustering
  = CC.calculate_mistakes self clustering'.
Proof. apply calculate_mistakes_partition_eq. Qed.

Lemma calculate_mistakes_same_partition_witness :
  CC.calculate_mistakes scenario (CC.singleton_clustering scenario)
  = CC.calculate_mistakes scenario (Z.succ <$> CC.singleton_clustering scenario).
Proof.
  apply (calculate_mistakes_same_partition scenario).
  intros u v. rewrite !lookup_fmap. split; [by intros ->|].
  destruct (CC.singleton_clustering scenario !! u),
           (CC.singleton_clustering scenario !! v); simpl; try done.
  intros [= H%Z.succ_inj]. by rewrite H.
Defined.

Section count_bounds.
Context (is_mistake : option Z → option Z → bool) (clustering : gmap Z Z).
Local Abbreviation step := (CC.count_step is_mistake clustering).

Lemma count_loop_bounds l n m :
  Py.for_each step l n = Some m → (n ≤ m ≤ n + length l)%nat.
Proof.
  revert n. induction l as [|k l IH]; intros n.
  - intros [= <-]. simpl. lia.
  - rewrite count_loop_cons.
    destruct (CC.unpack_edge k) as [[u v]|] eqn:E.
    + rewrite (count_step_Some _ _ _ _ _ _ E). cbn [mbind option_bind].
      intros H%IH. simpl. destruct (is_mistake _ _); lia.
    + by rewrite (count_step_None _ _ _ _ E).
Qed.

(** The loop over keys that all give the same answer to the test. *)
Lemma count_loop_all (b : bool) l n :
  Forall (λ k, ∃ u v, CC.unpack_edge k = Some (u, v)
                      ∧ is_mistake (clustering !! u) (clustering !! v) = b) l →
  Py.for_each step l n = Some (if b then n + length l else n)%nat.
Proof.
  intros Hl. revert n. induction Hl as [|k l (u & v & E & Hb) _ IH]; intros n.
  - simpl. f_equal. destruct b; lia.
  - rewrite count_loop_cons, (count_step_Some _ _ _ _ _ _ E), Hb.
    cbn [mbind option_bind]. rewrite IH. f_equal. destruct b; simpl; lia.
Qed.
End count_bounds.

(** X4: a count returned by [calculate_mistakes] is at most the number of
    stored edges, positive and negative, duplicates and reversed copies of an
    edge counted once. *)
Theorem calculate_mistakes_at_most_edges
    (self : CC.t) (clustering : gmap Z Z) (mistakes : nat) :
  CC.calculate_mistakes self clustering = Some mistakes →
  (mistakes ≤ size (CC.positive_edges self) + size (CC.negative_edges self))%nat.
Proof.
  unfold CC.calculate_mistakes.
  destruct (Py.for_each _ (elements (CC.positive_edges self)) _) as [m|] eqn:E;
    [|done].
  cbn [mbind option_bind]. intros H.
  apply count_loop_bounds in E. apply count_loop_bounds in H.
  unfold size, set_size. simpl in *. lia.
Qed.

Lemma calculate_mistakes_at_most_edges_witness :
  (3 ≤ size (CC.positive_edges scenario) + size (CC.negative_edges scenario))%nat.
Proof.
  apply (calculate_mistakes_at_most_edges scenario
           (CC.singleton_clustering scenario) 3).
  vm_compute. reflexivity.
Defined.

Lemma init_key_elem vs pos neg k :
  (k ∈ CC.positive_edges (CC.init vs pos neg)
   ↔ ∃ e, e ∈ pos ∧ k = CC._edge_key e.1 e.2)
  ∧ (k ∈ CC.negative_edges (CC.init vs pos neg)
     ↔ ∃ e, e ∈ neg ∧ k = CC._edge_key e.1 e.2).
Proof.
  simpl. rewrite !elem_of_list_to_set, !list_elem_of_fmap.
  split; split; intros (e & ? & ?); by exists e.
Qed.

(** X5: on a graph whose edges join two different non-negative vertices of
    the list, the singleton partition, from which both searches start, has
    exactly one mistake per stored positive edge and none for the negative
    edges. *)
Theorem singleton_count_positive_edges
    (vs : list Z) (pos neg : list (Z * Z)) :
  Forall (λ e : Z * Z, 0 <= e.1 ∧ 0 <= e.2 ∧ e.1 ≠ e.2 ∧ e.1 ∈ vs ∧ e.2 ∈ vs)
    (pos ++ neg)%list →
  CC.calculate_mistakes (CC.init vs pos neg)
    (CC.singleton_clustering (CC.init vs pos neg))
  = Some (size (CC.positive_edges (CC.init vs pos neg))).
Proof.
  intros Hedges. rewrite Forall_app, !Forall_forall in Hedges.
  destruct Hedges as [Hpos Hneg].
  set (self := CC.init vs pos neg).
  assert (∀ e : Z * Z,
            0 <= e.1 ∧ 0 <= e.2 ∧ e.1 ≠ e.2 ∧ e.1 ∈ vs ∧ e.2 ∈ vs →
            ∃ u v, CC.unpack_edge (CC._edge_key e.1 e.2) = Some (u, v)
                   ∧ CC.singleton_clustering self !! u = Some u
                   ∧ CC.singleton_clustering self !! v = Some v
                   ∧ u ≠ v) as Hkey.
  { intros [a b] (Ha & Hb & Hne & Hina & Hinb). simpl in *.
    exists (Z.min a b), (Z.max a b).
    split; [by apply unpack_edge_key|].
    rewrite !singleton_clustering_lookup.
    change (CC.vertices self) with vs.
    destruct (Z.le_ge_cases a b) as [Hle|Hle].
    - rewrite Z.min_l, Z.max_r by lia.
      rewrite !decide_True by done. by repeat split.
    - rewrite Z.min_r, Z.max_l by lia.
      rewrite !decide_True by done. repeat split; congruence. }
  unfold CC.calculate_mistakes.
  rewrite (count_loop_all CC.differ _ true).
  - cbn [mbind option_bind]. rewrite (count_loop_all CC.agree _ false); [done|].
    apply Forall_forall. intros k Hk%elem_of_elements.
    apply (init_key_elem vs pos neg) in Hk as (e & He & ->).
    destruct (Hkey e (Hneg e He)) as (u & v & E & Hu & Hv & Hne).
    exists u, v. split; [done|]. rewrite Hu, Hv. unfold CC.agree.
    apply bool_decide_eq_false. congruence.
  - apply Forall_forall. intros k Hk%elem_of_elements.
    apply (init_key_elem vs pos neg) in Hk as (e & He & ->).
    destruct (Hkey e (Hpos e He)) as (u & v & E & Hu & Hv & Hne).
    exists u, v. split; [done|]. rewrite Hu, Hv. unfold CC.differ.
    apply negb_true_iff, bool_decide_eq_false. congruence.
Qed.

Lemma singleton_count_positive_edges_witness :
  CC.calculate_mistakes scenario (CC.singleton_clustering scenario)
  = Some (size (CC.positive_edges scenario)).
Proof.
  apply (singleton_count_positive_edges [1; 2; 3; 4; 5]
           [(1, 2); (2, 3); (4, 5)] [(1, 4); (2, 5)]).
  repeat (constructor;
          [simpl; repeat split; (lia || (rewrite !elem_of_cons; tauto))|]).
  constructor.
Defined.

(** X6: an edge with a negative endpoint makes the graph unusable: its key
    starts with a minus sign, which [calculate_mistakes] splits at, so every
    call raises, for every clustering, and both searches raise at their first
    evaluation. *)
Theorem negative_id_raises
    (label_list : CC.t → gmap Z Z → list Z)
    (vs : list Z) (pos neg : list (Z * Z)) (e : Z * Z) :
  e ∈ (pos ++ neg)%list → e.1 < 0 ∨ e.2 < 0 →
  (∀ clustering, CC.calculate_mistakes (CC.init vs pos neg) clustering = None)
  ∧ CC.greedy_correlation_clustering label_list (CC.init vs pos neg) = Py.Raised
  ∧ CC.simple_greedy_clustering (CC.init vs pos neg) = Py.Raised.
Proof.
  intros He Hneg.
  assert (∀ clustering,
            CC.calculate_mistakes (CC.init vs pos neg) clustering = None) as H.
  { intros c. apply (init_negative_raises vs pos neg e c He). lia. }
  split; [exact H|].
  unfold CC.greedy_correlation_clustering, CC.simple_greedy_clustering,
    CC.greedy_search, CC.simple_search.
  by rewrite (start_raises _ (H _)).
Qed.

Lemma negative_id_raises_witness :
  CC.greedy_correlation_clustering ascending_labels (CC.init [-1; 2] [(-1, 2)] [])
  = Py.Raised.
Proof.
  apply (negative_id_raises ascending_labels [-1; 2] [(-1, 2)] [] (-1, 2)).
  - apply elem_of_app. left. apply list_elem_of_singleton. reflexivity.
  - left. simpl. lia.
Defined.

Lemma edge_key_comm u v : CC._edge_key u v = CC._edge_key v u.
Proof. unfold CC._edge_key. by rewrite Z.min_comm, Z.max_comm. Qed.

(** X7: edges are undirected and stored once.  Building the graph from
    edge lists that hold the same edges up to order, repetition and the order
    of the two endpoints gives the same graph, hence the same counts and the
    same searches. *)
Theorem init_undirected_edge_sets
    (vs : list Z) (pos pos' neg neg' : list (Z * Z)) :
  (∀ u v, (u, v) ∈ pos ∨ (v, u) ∈ pos ↔ (u, v) ∈ pos' ∨ (v, u) ∈ pos') →
  (∀ u v, (u, v) ∈ neg ∨ (v, u) ∈ neg ↔ (u, v) ∈ neg' ∨ (v, u) ∈ neg') →
  CC.init vs pos neg = CC.init vs pos' neg'.
Proof.
  assert (∀ l l' : list (Z * Z),
            (∀ u v, (u, v) ∈ l ∨ (v, u) ∈ l ↔ (u, v) ∈ l' ∨ (v, u) ∈ l') →
            (list_to_set (map (λ e, CC._edge_key e.1 e.2) l) : gset string)
            = list_to_set (map (λ e, CC._edge_key e.1 e.2) l')) as Hsets.
  { assert (∀ l l' : list (Z * Z),
              (∀ u v, (u, v) ∈ l ∨ (v, u) ∈ l → (u, v) ∈ l' ∨ (v, u) ∈ l') →
              ∀ k, k ∈ (list_to_set (map (λ e, CC._edge_key e.1 e.2) l)
                        : gset string) →
                   k ∈ (list_to_set (map (λ e, CC._edge_key e.1 e.2) l')
                        : gset string)) as Hsub.
    { intros l l' H k.
      rewrite !elem_of_list_to_set, !list_elem_of_fmap.
      intros ([u v] & -> & He). simpl.
      destruct (H u v (or_introl He)) as [He'|He'].
      - by exists (u, v).
      - exists (v, u). split; [apply edge_key_comm | done]. }
    intros l l' H. apply set_eq. intros k. split; apply Hsub; intros u v; apply H. }
  intros Hpos Hneg. unfold CC.init. f_equal; by apply Hsets.
Qed.

Lemma init_undirected_edge_sets_witness :
  CC.init [1; 2] [(1, 2)] [] = CC.init [1; 2] [(2, 1); (1, 2); (2, 1)] [].
Proof.
  apply (init_undirected_edge_sets [1; 2] [(1, 2)] [(2, 1); (1, 2); (2, 1)] [] []).
  - intros u v. rewrite !elem_of_cons, !elem_of_nil.
    split; intros H; destruct_or?; simplify_eq; auto 10.
  - done.
Defined.

(** ** Where the searches stop *)

Section quiet_loops.
Context {A St : Type} (flag : St → bool) (body : St → A → option St).
Hypothesis body_step : ∀ s x s', body s x = Some s' → s' = s ∨ flag s' = true.
Hypothesis body_sticky :
  ∀ s x s', flag s = true → body s x = Some s' → flag s' = true.

Lemma for_each_sticky l s s' :
  flag s = true → Py.for_each body l s = Some s' → flag s' = true.
Proof.
  intros Hs. apply (for_each_invariant _ (λ s, flag s = true)); [|done].
  intros s1 x s2 _. apply body_sticky.
Qed.

(** A loop that ends with the flag down changed nothing on the way. *)
Lemma for_each_quiet l s s' :
  Py.for_each body l s = Some s' → flag s' = false →
  s' = s ∧ ∀ x, x ∈ l → body s x = Some s.
Proof.
  revert s. induction l as [|x l IH]; intros s; simpl.
  - intros [= <-] _. split; [done|]. by intros x ?%elem_of_nil.
  - destruct (body s x) as [s1|] eqn:E; [|done]. simpl. intros Hrun Hflag.
    destruct (body_step _ _ _ E) as [->|Hs1].
    + destruct (IH _ Hrun Hflag) as [-> Hall]. split; [done|].
      intros y [->|Hy]%elem_of_cons; auto.
    + rewrite (for_each_sticky _ _ _ Hs1 Hrun) in Hflag. done.
Qed.

Lemma for_each_step l s s' :
  Py.for_each body l s = Some s' → s' = s ∨ flag s' = true.
Proof.
  revert s. induction l as [|x l IH]; intros s; simpl.
  - intros [= <-]. by left.
  - destruct (body s x) as [s1|] eqn:E; [|done]. simpl. intros Hrun.
    destruct (body_step _ _ _ E) as [->|Hs1]; [by apply IH|].
    right. by eapply for_each_sticky.
Qed.
End quiet_loops.

Lemma consider_step self test_clustering st st' :
  CC.consider self test_clustering st = Some st' →
  st' = st ∨ CC.improved st' = true.
Proof.
  unfold CC.consider.
  destruct (CC.calculate_mistakes self test_clustering) as [m|]; [|done].
  simpl. intros [= <-]. destruct (decide _); auto.
Qed.

Lemma consider_sticky self test_clustering st st' :
  CC.improved st = true → CC.consider self test_clustering st = Some st' →
  CC.improved st' = true.
Proof. intros Hs [->|?]%consider_step; done. Qed.

(** A candidate that left a state with the flag down was not better. *)
Lemma consider_quiet self test_clustering st :
  CC.improved st = false →
  CC.consider self test_clustering st = Some st →
  ∃ m, CC.calculate_mistakes self test_clustering = Some m
       ∧ (CC.min_mistakes st ≤ m)%nat.
Proof.
  intros Hflag. unfold CC.consider.
  destruct (CC.calculate_mistakes self test_clustering) as [m|]; [|done].
  simpl. destruct (decide _) as [|Hge].
  - intros [= H]. rewrite <- H in Hflag. done.
  - intros _. exists m. split; [done|lia].
Qed.

Lemma try_vertices_step self u v st st' :
  CC.try_vertices self u v st = Some st' → st' = st ∨ CC.improved st' = true.
Proof.
  unfold CC.try_vertices.
  destruct (decide (u = v)); [intros [= <-]; by left|].
  destruct (decide (_ = _)); [intros [= <-]; by left|].
  apply consider_step.
Qed.

Lemma try_vertices_sticky self u v st st' :
  CC.improved st = true → CC.try_vertices self u v st = Some st' →
  CC.improved st' = true.
Proof. intros Hs [->|?]%try_vertices_step; done. Qed.

Lemma try_merge_step self cc i j st st' :
  CC.try_merge self cc i j st = Some st' → st' = st ∨ CC.improved st' = true.
Proof.
  unfold CC.try_merge.
  destruct (cc !! i); [|done]. destruct (cc !! j); [|done]. simpl.
  apply consider_step.
Qed.

Lemma try_merge_sticky self cc i j st st' :
  CC.improved st = true → CC.try_merge self cc i j st = Some st' →
  CC.improved st' = true.
Proof. intros Hs [->|?]%try_merge_step; done. Qed.

(** A pass of the vertex-pair search that ends with [changed] down has
    tried every pair of vertices on the clustering it started from and found
    no candidate better. *)
Lemma simple_pass_quiet self st st' :
  CC.simple_pass self st = Some st' → CC.improved st' = false →
  st' = CC.set_improved false st
  ∧ ∀ u v, u ∈ CC.vertices self → v ∈ CC.vertices self →
           CC.try_vertices self u v st' = Some st'.
Proof.
  unfold CC.simple_pass. intros Hrun Hflag.
  apply (for_each_quiet CC.improved) in Hrun as [-> Hall]; [|..|done].
  - split; [done|]. intros u v Hu Hv.
    specialize (Hall u Hu).
    apply (for_each_quiet CC.improved) in Hall as [_ Hall]; [by apply Hall|..|done].
    + intros ???. apply try_vertices_step.
    + intros ???. apply try_vertices_sticky.
  - intros s u s'. apply (for_each_step CC.improved).
    + intros ???. apply try_vertices_step.
    + intros ???. apply try_vertices_sticky.
  - intros s u s' Hs. apply (for_each_sticky CC.improved); [|done].
    intros ???. apply try_vertices_sticky.
Qed.

(** The same for a round of the cluster-merge search and the pairs of
    positions in its list of labels. *)
Lemma greedy_round_quiet label_list self st iterations st' iterations' :
  CC.greedy_round label_list self (st, iterations) = Some (st', iterations') →
  CC.improved st' = false →
  st' = CC.set_improved false st
  ∧ ∀ i j, (i < j < length (label_list self (CC.clustering st')))%nat →
           CC.try_merge self (label_list self (CC.clustering st')) i j st'
           = Some st'.
Proof.
  unfold CC.greedy_round. cbn [fst snd].
  destruct (Py.for_each _ _ _) as [s|] eqn:Hrun; [|done]. simpl.
  intros [= -> _] Hflag.
  apply (for_each_quiet CC.improved) in Hrun as [-> Hall]; [|..|done].
  - split; [done|]. intros i j Hij. simpl.
    assert (i ∈ Py.range 0 (length (label_list self (CC.clustering st)))) as Hi.
    { unfold Py.range. apply elem_of_seq. simpl in Hij. lia. }
    specialize (Hall i Hi).
    apply (for_each_quiet CC.improved) in Hall as [_ Hall]; [|..|done].
    + apply Hall. unfold Py.range. apply elem_of_seq. simpl in *. lia.
    + intros ???. apply try_merge_step.
    + intros ???. apply try_merge_sticky.
  - intros s i s'. apply (for_each_step CC.improved).
    + intros ???. apply try_merge_step.
    + intros ???. apply try_merge_sticky.
  - intros s i s' Hs. apply (for_each_sticky CC.improved); [|done].
    intros ???. apply try_merge_sticky.
Qed.

(** The last execution of the body of a loop that was entered. *)
Lemma while_loop_last {St : Type} (cond : St → bool) (body : St → option St)
    fuel p s s' p' :
  cond s = true →
  Py.while_loop cond body fuel p s = Py.Done s' p' →
  ∃ s0, cond s0 = true ∧ body s0 = Some s' ∧ cond s' = false.
Proof.
  revert p s. induction fuel as [|fuel IH]; intros p s Hc; simpl; rewrite Hc.
  - done.
  - destruct (body s) as [s1|] eqn:E; [|done].
    destruct (cond s1) eqn:Hc1.
    + by apply IH.
    + destruct fuel; simpl; rewrite Hc1; intros [= <- <-]; by exists s.
Qed.

Lemma merge_into_same a (c : gmap Z Z) : CC.merge_into a a c = c.
Proof.
  unfold CC.merge_into. apply map_eq. intros i. rewrite lookup_fmap.
  destruct (c !! i) as [x|]; [|done]. simpl. by destruct (decide (x = a)) as [->|].
Qed.

Lemma merge_into_lookup a b (c : gmap Z Z) i :
  CC.merge_into a b c !! i
  = (λ x, if decide (x = a) then b else x) <$> c !! i.
Proof. unfold CC.merge_into. apply lookup_fmap. Qed.

(** Merging one cluster into the other or the other way round gives the
    same partition. *)
Lemma merge_into_swap_partition a b (c : gmap Z Z) u v :
  CC.merge_into a b c !! u = CC.merge_into a b c !! v
  ↔ CC.merge_into b a c !! u = CC.merge_into b a c !! v.
Proof.
  rewrite !merge_into_lookup.
  destruct (c !! u) as [x|], (c !! v) as [y|]; simpl; [|done..].
  repeat destruct (decide _); split; intros H; simplify_eq; congruence.
Qed.

(** X8: the clustering returned by the vertex-pair search is a local
    optimum for merges of clusters: relabelling one of its clusters to the
    label of another gives a clustering that [calculate_mistakes] does not
    count lower than the returned [mistakes]. *)
Theorem simple_result_local_optimum (self : CC.t) :
  match CC.simple_greedy_clustering self with
  | Py.Done r _ =>
      ∀ a b : Z,
        a ∈ (map_img (Clustering.clustering r) : gset Z) →
        b ∈ (map_img (Clustering.clustering r) : gset Z) →
        ∃ m, CC.calculate_mistakes self
               (CC.merge_into a b (Clustering.clustering r)) = Some m
             ∧ (Clustering.mistakes r ≤ m)%nat
  | Py.Raised =>
      CC.calculate_mistakes self (CC.singleton_clustering self) = None
  | Py.OutOfFuel => False
  end.
Proof.
  unfold CC.simple_greedy_clustering.
  destruct (CC.calculate_mistakes self (CC.singleton_clustering self))
    as [m0|] eqn:Hm.
  - destruct (simple_search_spec self m0 Hm (CC.simple_fuel self))
      as (st & p & Hrun & Hinv & Hflag & _).
    { unfold CC.simple_fuel. rewrite Hm. lia. }
    rewrite Hrun. simpl. destruct Hinv. rewrite inv_best.
    unfold CC.simple_search in Hrun.
    destruct (start_spec self m0 Hm) as (st0 & Hst0 & _ & Hflag0 & _).
    rewrite Hst0 in Hrun.
    apply while_loop_last in Hrun as (s1 & _ & Hpass & _); [|done].
    apply simple_pass_quiet in Hpass as [_ Hall]; [|done].
    intros a b [u Hu]%elem_of_map_img [v Hv]%elem_of_map_img.
    destruct (decide (a = b)) as [->|Hab].
    { rewrite merge_into_same. exists (CC.min_mistakes st). by split. }
    assert (∀ w x, CC.clustering st !! w = Some x → w ∈ CC.vertices self) as Hin.
    { intros w x Hw. apply (elem_of_list_to_set (C := gset Z)).
      rewrite <- inv_dom. apply elem_of_dom. by eexists. }
    specialize (Hall u v (Hin _ _ Hu) (Hin _ _ Hv)).
    unfold CC.try_vertices in Hall. rewrite Hu, Hv in Hall.
    rewrite decide_False in Hall by congruence.
    rewrite decide_False in Hall by congruence.
    simpl in Hall. by apply consider_quiet in Hall.
  - unfold CC.simple_search. by rewrite (start_raises self Hm).
Qed.

(** X9: when the cluster-merge search stops because a round committed no
    merge, its clustering is a local optimum in the same sense, provided the
    list of labels that the round went through holds every label in use. *)
Theorem greedy_result_local_optimum
    (label_list : CC.t → gmap Z Z → list Z) (self : CC.t) :
  (∀ (clustering : gmap Z Z) (x : Z),
     x ∈ (map_img clustering : gset Z) → x ∈ label_list self clustering) →
  match CC.greedy_search label_list (CC.max_iterations self) self with
  | Py.Done state _ =>
      CC.improved state.1 = false →
      ∀ a b : Z,
        a ∈ (map_img (CC.best_clustering state.1) : gset Z) →
        b ∈ (map_img (CC.best_clustering state.1) : gset Z) →
        ∃ m, CC.calculate_mistakes self
               (CC.merge_into a b (CC.best_clustering state.1)) = Some m
             ∧ (CC.min_mistakes state.1 ≤ m)%nat
  | Py.Raised =>
      CC.calculate_mistakes self (CC.singleton_clustering self) = None
  | Py.OutOfFuel => False
  end.
Proof.
  intros Hall_labels.
  destruct (CC.calculate_mistakes self (CC.singleton_clustering self))
    as [m0|] eqn:Hm.
  - destruct (greedy_search_spec label_list self m0 Hm (CC.max_iterations self))
      as (st & it & Hrun & Hinv & _); [done|].
    rewrite Hrun. cbn [fst]. intros Hflag. destruct Hinv. rewrite inv_best.
    unfold CC.greedy_search in Hrun.
    destruct (start_spec self m0 Hm) as (st0 & Hst0 & _ & Hflag0 & _).
    rewrite Hst0 in Hrun.
    destruct (CC.greedy_cond self (st0, 0%nat)) eqn:Hc0.
    + apply while_loop_last in Hrun as ([s1 it1] & _ & Hround & _); [|done].
      apply greedy_round_quiet in Hround as [_ Hall]; [|done].
      assert (∀ a b i j,
                (i < j)%nat →
                label_list self (CC.clustering st) !! i = Some a →
                label_list self (CC.clustering st) !! j = Some b →
                ∃ m, CC.calculate_mistakes self
                       (CC.merge_into a b (CC.clustering st)) = Some m
                     ∧ (CC.min_mistakes st ≤ m)%nat) as Hpair.
      { intros a b i j Hij Hi Hj.
        specialize (Hall i j). unfold CC.try_merge in Hall.
        rewrite Hi, Hj in Hall. simpl in Hall.
        apply consider_quiet in Hall; [done..|].
        split; [done|]. by eapply lookup_lt_Some. }
      intros a b Ha Hb.
      apply Hall_labels, list_elem_of_lookup in Ha as [i Hi].
      apply Hall_labels, list_elem_of_lookup in Hb as [j Hj].
      destruct (decide (a = b)) as [->|Hab].
      { rewrite merge_into_same. exists (CC.min_mistakes st). by split. }
      destruct (Nat.lt_total i j) as [Hlt|[->|Hgt]].
      * by eapply Hpair.
      * congruence.
      * destruct (Hpair b a j i Hgt Hj Hi) as (m & Hcalc & Hle).
        exists m. split; [|done]. rewrite <- Hcalc.
        apply calculate_mistakes_partition_eq. apply merge_into_swap_partition.
    + destruct (CC.max_iterations self); simpl in Hrun; rewrite Hc0 in Hrun;
        injection Hrun as <- <-; simpl in Hflag; congruence.
  - unfold CC.greedy_search. by rewrite (start_raises self Hm).
Qed.

(** ** The labels of the clusters *)

(** Relabelling a cluster to a label that is not in use changes no
    partition. *)
Lemma merge_into_fresh_partition a b (c : gmap Z Z) u v :
  b ∉ (map_img c : gset Z) →
  CC.merge_into a b c !! u = CC.merge_into a b c !! v ↔ c !! u = c !! v.
Proof.
  intros Hb. rewrite !merge_into_lookup.
  destruct (c !! u) as [x|] eqn:Hu, (c !! v) as [y|] eqn:Hv; simpl; [|done..].
  assert (x ≠ b) as Hxb by (intros ->; apply Hb; by eapply elem_of_map_img_2).
  assert (y ≠ b) as Hyb by (intros ->; apply Hb; by eapply elem_of_map_img_2).
  repeat destruct (decide _); split; intros Heq; simplify_eq; congruence.
Qed.

Lemma own_labels_merge a b (c : gmap Z Z) :
  CC.own_labels c → b ∈ (map_img c : gset Z) →
  CC.own_labels (CC.merge_into a b c).
Proof.
  intros Hown [w Hw]%elem_of_map_img v l.
  pose proof (Hown w b Hw) as Hb.
  destruct (decide (a = b)) as [->|Hab];
    [rewrite merge_into_same; apply Hown|].
  rewrite !merge_into_lookup.
  destruct (c !! v) as [x|] eqn:Hv; [|done]. simpl.
  intros [= <-]. destruct (decide (x = a)) as [->|Hx].
  - rewrite Hb. simpl. by rewrite decide_False by done.
  - rewrite (Hown v x Hv). simpl. by rewrite decide_False.
Qed.

Lemma singleton_own_labels self :
  CC.own_labels (CC.singleton_clustering self).
Proof.
  intros v l. rewrite !singleton_clustering_lookup.
  destruct (decide (v ∈ _)); [|done]. intros [= <-]. by rewrite decide_True.
Qed.

Section labels.
Context (self : CC.t).
Local Abbreviation P := (CC.labelled_by_members self).

Lemma consider_labelled a b st st' :
  P st →
  CC.consider self (CC.merge_into a b (CC.clustering st)) st = Some st' →
  P st'.
Proof.
  intros (Hcalc & Hbest & Hown). unfold CC.consider.
  destruct (CC.calculate_mistakes self (CC.merge_into a b (CC.clustering st)))
    as [m|] eqn:Hm; [|done]. simpl.
  intros [= <-]. destruct (decide (m < _)%nat) as [Hlt|]; [|done].
  unfold CC.labelled_by_members. simpl. split; [done|]. split; [done|].
  destruct (decide (b ∈ (map_img (CC.clustering st) : gset Z))) as [Hb|Hb].
  - by apply own_labels_merge.
  - rewrite (calculate_mistakes_partition_eq self _ (CC.clustering st)) in Hm
      by (intros u v; by apply merge_into_fresh_partition).
    rewrite Hcalc in Hm. injection Hm as <-. lia.
Qed.

Lemma consider_same_labelled st st' :
  P st → CC.consider self (CC.clustering st) st = Some st' → P st'.
Proof.
  intros HP. rewrite <- (merge_into_same 0 (CC.clustering st)) at 1.
  by apply consider_labelled.
Qed.

Lemma try_merge_labelled cc i j st st' :
  P st → CC.try_merge self cc i j st = Some st' → P st'.
Proof.
  intros HP. unfold CC.try_merge.
  destruct (cc !! i) as [a|]; [|done]. destruct (cc !! j) as [b|]; [|done].
  simpl. by apply consider_labelled.
Qed.

Lemma try_vertices_labelled u v st st' :
  P st → CC.try_vertices self u v st = Some st' → P st'.
Proof.
  intros HP. unfold CC.try_vertices.
  destruct (decide (u = v)); [by intros [= <-]|].
  destruct (decide (_ = _)); [by intros [= <-]|].
  unfold CC._clone_clustering.
  destruct (CC.clustering st !! u) as [a|], (CC.clustering st !! v) as [b|];
    simpl; (by apply consider_labelled) || (by apply consider_same_labelled).
Qed.

Lemma set_improved_labelled b st : P st → P (CC.set_improved b st).
Proof. done. Qed.

Lemma greedy_round_labelled label_list state state' :
  P state.1 → CC.greedy_round label_list self state = Some state' → P state'.1.
Proof.
  intros HP. unfold CC.greedy_round.
  destruct (Py.for_each _ _ _) as [s|] eqn:Hrun; [|done]. simpl.
  intros [= <-]. simpl.
  revert Hrun. apply (for_each_invariant _ P); [|by apply set_improved_labelled].
  intros s1 i s2 _ Hs1. apply (for_each_invariant _ P); [|done].
  intros s3 j s4 _ Hs3. by apply try_merge_labelled.
Qed.

Lemma simple_pass_labelled st st' :
  P st → CC.simple_pass self st = Some st' → P st'.
Proof.
  intros HP. unfold CC.simple_pass.
  apply (for_each_invariant _ P); [|by apply set_improved_labelled].
  intros s1 u s2 _ Hs1. apply (for_each_invariant _ P); [|done].
  intros s3 v s4 _ Hs3. by apply try_vertices_labelled.
Qed.

Lemma start_labelled st : CC.start self = Some st → P st.
Proof.
  unfold CC.start, CC._clone_clustering.
  destruct (CC.calculate_mistakes self _) as [m|] eqn:Hm; [|done]. simpl.
  intros [= <-]. split; [done|]. split; [done|]. apply singleton_own_labels.
Qed.
End labels.

(** X10: in the clustering returned by either search every cluster is
    labelled by the id of one of its own vertices: the label of a vertex is
    a key of the clustering and is its own label.  In particular every label
    is a vertex id. *)
Theorem result_labels_are_members
    (label_list : CC.t → gmap Z Z → list Z) (self : CC.t) :
  match CC.greedy_correlation_clustering label_list self with
  | Py.Done r _ =>
      ∀ v l : Z, Clustering.clustering r !! v = Some l →
                 Clustering.clustering r !! l = Some l
  | Py.Raised =>
      CC.calculate_mistakes self (CC.singleton_clustering self) = None
  | Py.OutOfFuel => False
  end
  ∧ match CC.simple_greedy_clustering self with
    | Py.Done r _ =>
        ∀ v l : Z, Clustering.clustering r !! v = Some l →
                   Clustering.clustering r !! l = Some l
    | Py.Raised =>
        CC.calculate_mistakes self (CC.singleton_clustering self) = None
    | Py.OutOfFuel => False
    end.
Proof.
  unfold CC.greedy_correlation_clustering, CC.simple_greedy_clustering.
  destruct (CC.calculate_mistakes self (CC.singleton_clustering self))
    as [m0|] eqn:Hm.
  - destruct (start_spec self m0 Hm) as (st0 & Hst0 & _).
    pose proof (start_labelled self st0 Hst0) as HP0.
    split.
    + destruct (greedy_search_spec label_list self m0 Hm (CC.max_iterations self))
        as (st & it & Hrun & _); [done|].
      rewrite Hrun. unfold CC.greedy_search in Hrun. rewrite Hst0 in Hrun.
      apply (while_loop_invariant _ _
               (λ s _, CC.labelled_by_members self s.1)) in Hrun
        as [(_ & Hbest & Hown) _]; [|by intros; eapply greedy_round_labelled|done].
      simpl in *. by rewrite Hbest.
    + destruct (simple_search_spec self m0 Hm (CC.simple_fuel self))
        as (st & p & Hrun & _).
      { unfold CC.simple_fuel. rewrite Hm. lia. }
      rewrite Hrun. unfold CC.simple_search in Hrun. rewrite Hst0 in Hrun.
      apply (while_loop_invariant _ _
               (λ s _, CC.labelled_by_members self s)) in Hrun
        as [(_ & Hbest & Hown) _]; [|by intros; eapply simple_pass_labelled|done].
      simpl in *. by rewrite Hbest.
  - unfold CC.greedy_search, CC.simple_search.
    by rewrite (start_raises self Hm).
Qed.

Lemma ascending_labels_complete self (clustering : gmap Z Z) (x : Z) :
  x ∈ (map_img clustering : gset Z) → x ∈ ascending_labels self clustering.
Proof.
  intros Hx. unfold ascending_labels.
  rewrite merge_sort_Permutation. by apply elem_of_elements.
Qed.

Lemma greedy_result_local_optimum_witness :
  match CC.greedy_search ascending_labels (CC.max_iterations scenario) scenario
  with
  | Py.Done state _ =>
      CC.improved state.1 = false →
      ∀ a b : Z,
        a ∈ (map_img (CC.best_clustering state.1) : gset Z) →
        b ∈ (map_img (CC.best_clustering state.1) : gset Z) →
        ∃ m, CC.calculate_mistakes scenario
               (CC.merge_into a b (CC.best_clustering state.1)) = Some m
             ∧ (CC.min_mistakes state.1 ≤ m)%nat
  | Py.Raised =>
      CC.calculate_mistakes scenario (CC.singleton_clustering scenario) = None
  | Py.OutOfFuel => False
  end.
Proof.
  apply (greedy_result_local_optimum ascending_labels scenario).
  intros clustering x. apply ascending_labels_complete.
Defined.
